(** * lockout-verify: the Merkle root verifier of [verifier.py]

    A shallow embedding of [src/verifier.py] and the properties of its
    three functions [build_merkle_leaves], [build_merkle_root] and
    [verify_against_txs].

    Conventions of the embedding.
    - A Python [str] is the list of its code points ([N]); [bytes] is a
      list of [Byte.byte].
    - A Python call that can raise returns a [result]; the exceptions
      the program can meet are the constructors of [exn].
    - [print] writes a line to an output log, which [verify_against_txs]
      returns next to its outcome ([io]), or raises when [sys.stdout]
      cannot encode the line ([Stdout]).
    - The libraries are interfaces: [Web3.keccak] ([Hasher], with the
      Keccak-256 sponge of module [Keccak] as its instance) and the
      [hex()] of the [HexBytes] it returns, which writes the 0x prefix
      in hexbytes before 1.0 and does not from 1.0 on ([HexBytes]).
    - The file system gives, for a path, the text that lines 33-34 read
      or the exception they raise. *)

From Stdlib.Strings Require Import Byte Ascii String.
From Stdlib Require Import List NArith Lia Bool Arith Permutation Sorted.
Import ListNotations.

Set Implicit Arguments.

(** ** Python values *)

Definition str : Type := list N.
Definition bytes : Type := list byte.

(** A literal of the source: each character of an ASCII literal is its
    own code point. *)
Definition py (s : string) : str := map N_of_ascii (list_ascii_of_string s).

Definition byte_of_N (n : N) : byte :=
  match Byte.of_N (n mod 256) with
  | Some b => b
  | None => x00
  end.

(** ** Exceptions and outcomes *)

Inductive exn : Type :=
| ValueError_no_leaves      (* raise ValueError("No leaves"), line 16 *)
| ValueError_fromhex        (* bytes.fromhex on text that is not hex *)
| UnicodeEncodeError        (* str.encode or print on text it cannot encode *)
| IndexError                (* current[0] on an empty list *)
| OSError                   (* open of a file that cannot be opened *)
| UnicodeDecodeError        (* f.read() of a file that is not UTF-8 *)
| ValueError_open.          (* open on a path with a NUL character *)

Inductive result (A : Type) : Type :=
| Ok (a : A)
| Raise (e : exn)
| OutOfFuel.

Arguments Ok {A} a.
Arguments Raise {A} e.
Arguments OutOfFuel {A}.

Definition bind {A B : Type} (m : result A) (k : A -> result B) : result B :=
  match m with
  | Ok a => k a
  | Raise e => Raise e
  | OutOfFuel => OutOfFuel
  end.

Declare Scope py_scope.
Delimit Scope py_scope with py.
Notation "'let*' x ':=' m 'in' k" := (bind m (fun x => k))
  (at level 10, x name, m at level 100, k at level 200) : py_scope.
Notation "'let*' ' p ':=' m 'in' k" := (bind m (fun p => k))
  (at level 10, p pattern, m at level 100, k at level 200) : py_scope.
Local Open Scope py_scope.

(** [[f(x) for x in xs]] for an [f] that can raise: left to right, the
    first exception wins. *)
Fixpoint comprehension {A B : Type} (f : A -> result B) (xs : list A)
  : result (list B) :=
  match xs with
  | [] => Ok []
  | x :: xs' =>
      let* y := f x in
      let* ys := comprehension f xs' in
      Ok (y :: ys)
  end.

(** Printed lines, then the outcome. *)
Definition io (A : Type) : Type := (list str * result A)%type.

Definition io_ret {A : Type} (a : A) : io A := ([], Ok a).

Definition io_bind {A B : Type} (m : io A) (k : A -> io B) : io B :=
  match m with
  | (out, Ok a) => let (out', r) := k a in (out ++ out', r)
  | (out, Raise e) => (out, Raise e)
  | (out, OutOfFuel) => (out, OutOfFuel)
  end.

Definition lift {A : Type} (r : result A) : io A := ([], r).

(** [sys.stdout]: the code points that its encoding, with its error
    handler, accepts. *)
Class Stdout : Type := stdout_encodes : N -> bool.

Definition printable {stdout : Stdout} (line : str) : bool :=
  forallb stdout_encodes line.

(** [print(line)]: the line is encoded as a whole before any of it is
    written; a character that [sys.stdout] cannot encode raises
    [UnicodeEncodeError] and the line is not printed. *)
Definition print {stdout : Stdout} (line : str) : io unit :=
  if printable line then ([line], Ok tt) else ([], Raise UnicodeEncodeError).

(** What is on the output after the lines are printed one by one: the
    lines before the first one that [sys.stdout] refuses. *)
Fixpoint printed {stdout : Stdout} (lines : list str) : list str :=
  match lines with
  | [] => []
  | line :: lines' => if printable line then line :: printed lines' else []
  end.

Notation "'do' x '<-' m ';' k" := (io_bind m (fun x => k))
  (at level 10, x name, m at level 100, k at level 200) : py_scope.

(** [for x in xs: body(x)] *)
Fixpoint for_each {A : Type} (xs : list A) (body : A -> io unit) : io unit :=
  match xs with
  | [] => io_ret tt
  | x :: xs' => do _ <- body x; for_each xs' body
  end.

(** ** Built-ins of Python the program calls *)

(** [a == b] on [str]. *)
Fixpoint str_eqb (a b : str) : bool :=
  match a, b with
  | [], [] => true
  | x :: a', y :: b' => (x =? y)%N && str_eqb a' b'
  | _, _ => false
  end.

(** [a < b] on [str]: lexicographic on code points. *)
Fixpoint str_ltb (a b : str) : bool :=
  match a, b with
  | _, [] => false
  | [], _ :: _ => true
  | x :: a', y :: b' =>
      if (x <? y)%N then true
      else if (y <? x)%N then false
      else str_ltb a' b'
  end.

(** Text order, [a <= b]. *)
Definition str_le (a b : str) : Prop := str_ltb b a = false.

Definition str_eq_dec (a b : str) : {a = b} + {a <> b} :=
  list_eq_dec N.eq_dec a b.

(** [sorted(docs)]: Python's sort is stable and compares with [<]; the
    stable insertion sort below returns the same list. *)
Fixpoint insert (x : str) (l : list str) : list str :=
  match l with
  | [] => [x]
  | y :: l' => if str_ltb y x then y :: insert x l' else x :: l
  end.

Fixpoint sorted (docs : list str) : list str :=
  match docs with
  | [] => []
  | d :: docs' => insert d (sorted docs')
  end.

(** The UTF-8 code units of a code point, as numbers. *)
Definition utf8_units (c : N) : list N :=
  (if c <? 0x80 then [c]
   else if c <? 0x800 then [0xC0 + c / 64; 0x80 + c mod 64]
   else if c <? 0x10000 then
     [0xE0 + c / 4096; 0x80 + (c / 64) mod 64; 0x80 + c mod 64]
   else [0xF0 + c / 262144; 0x80 + (c / 4096) mod 64;
         0x80 + (c / 64) mod 64; 0x80 + c mod 64])%N.

(** [doc.encode('utf-8')]. A [str] may hold lone surrogates, which raise
    [UnicodeEncodeError]; numbers above U+10FFFF are not code points of
    any [str] and are refused as well. *)
Definition encode_char (c : N) : result bytes :=
  if ((0xD800 <=? c) && (c <=? 0xDFFF) || (0x110000 <=? c))%N
  then Raise UnicodeEncodeError
  else Ok (map byte_of_N (utf8_units c)).

Fixpoint encode_utf8 (s : str) : result bytes :=
  match s with
  | [] => Ok []
  | c :: s' =>
      let* b := encode_char c in
      let* bs := encode_utf8 s' in
      Ok (b ++ bs)
  end.

(** [a < b] on [bytes]: lexicographic on byte values. *)
Fixpoint bytes_ltb (a b : bytes) : bool :=
  match a, b with
  | _, [] => false
  | [], _ :: _ => true
  | x :: a', y :: b' =>
      if (Byte.to_N x <? Byte.to_N y)%N then true
      else if (Byte.to_N y <? Byte.to_N x)%N then false
      else bytes_ltb a' b'
  end.

(** Byte-wise order of the encodings, for texts that encode. *)
Definition utf8_le (a b : str) : Prop :=
  forall ba bb,
    encode_utf8 a = Ok ba -> encode_utf8 b = Ok bb -> bytes_ltb bb ba = false.

(** The two lower-case hex digits of each byte. *)
Definition hexdigit (n : N) : N :=
  (if n <? 10 then 48 + n else 87 + n)%N.

Definition hexlify (bs : bytes) : str :=
  flat_map (fun b => [hexdigit (Byte.to_N b / 16); hexdigit (Byte.to_N b mod 16)]%N) bs.

(** The installed hexbytes: whether [HexBytes.hex()] writes the 0x
    prefix (it does before version 1.0 and does not from 1.0 on, which
    is what an unpinned [pip install web3] brings). *)
Class HexBytes : Type := hex_has_prefix : bool.

Definition hexbytes_0 : HexBytes := true.
Definition hexbytes_1 : HexBytes := false.

(** [HexBytes.hex()] *)
Definition hex {hexbytes : HexBytes} (bs : bytes) : str :=
  (if hex_has_prefix then py "0x" else []) ++ hexlify bs.

(** [bytes.fromhex(s)]: ASCII white space is skipped between bytes, a
    byte is two hex digits of either case, anything else raises
    [ValueError]. *)
Definition isspace_ascii (c : N) : bool :=
  ((9 <=? c) && (c <=? 13) || (c =? 32))%N.

Definition digit_value (c : N) : option N :=
  (if (48 <=? c) && (c <=? 57) then Some (c - 48)
   else if (97 <=? c) && (c <=? 102) then Some (c - 87)
   else if (65 <=? c) && (c <=? 70) then Some (c - 55)
   else None)%N.

Fixpoint fromhex (s : str) : result bytes :=
  match s with
  | [] => Ok []
  | c :: s' =>
      if isspace_ascii c then fromhex s'
      else
        match digit_value c, s' with
        | Some top, d :: s'' =>
            match digit_value d with
            | Some bot =>
                let* rest := fromhex s'' in
                Ok (byte_of_N (top * 16 + bot) :: rest)
            | None => Raise ValueError_fromhex
            end
        | _, _ => Raise ValueError_fromhex
        end
  end.

(** [s.startswith(prefix)] *)
Fixpoint starts_with (prefix s : str) : bool :=
  match prefix, s with
  | [], _ => true
  | p :: prefix', c :: s' => (p =? c)%N && starts_with prefix' s'
  | _ :: _, [] => false
  end.

(** [s.split(sep)] for a non-empty [sep]: the occurrences of [sep] are
    taken left to right without overlap. [skip] counts the characters
    of a separator still to pass over, [piece] is the current piece in
    reverse. *)
Fixpoint split_from (sep s : str) (skip : nat) (piece : str) : list str :=
  match s with
  | [] => [rev piece]
  | c :: s' =>
      match skip with
      | S k => split_from sep s' k piece
      | O =>
          if starts_with sep s
          then rev piece :: split_from sep s' (length sep - 1) []
          else split_from sep s' 0 (c :: piece)
      end
  end.

Definition split (s sep : str) : list str := split_from sep s 0 [].

(** [c.isspace()] for a character of a [str]. *)
Definition isspace (c : N) : bool :=
  ((9 <=? c) && (c <=? 13) || (0x1C <=? c) && (c <=? 0x20)
   || (c =? 0x85) || (c =? 0xA0) || (c =? 0x1680)
   || (0x2000 <=? c) && (c <=? 0x200A)
   || (c =? 0x2028) || (c =? 0x2029) || (c =? 0x202F)
   || (c =? 0x205F) || (c =? 0x3000))%N.

Fixpoint lstrip (s : str) : str :=
  match s with
  | [] => []
  | c :: s' => if isspace c then lstrip s' else s
  end.

(** [s.strip()] *)
Definition strip (s : str) : str := rev (lstrip (rev (lstrip s))).

(** ** Keccak-256, the digest behind [Web3.keccak] *)

Module Keccak.
Local Open Scope N_scope.

Definition mask64 : N := 0xFFFFFFFFFFFFFFFF.

Definition rotl64 (w : N) (n : N) : N :=
  N.land (N.lor (N.shiftl w n) (N.shiftr w (64 - n))) mask64.

(** The state is 25 lanes of 64 bits, lane (x, y) at index x + 5 y. *)
Definition lane (st : list N) (x y : nat) : N :=
  nth (x mod 5 + 5 * (y mod 5))%nat st 0.

Definition RC : list N :=
  [ 0x0000000000000001; 0x0000000000008082; 0x800000000000808A;
    0x8000000080008000; 0x000000000000808B; 0x0000000080000001;
    0x8000000080008081; 0x8000000000008009; 0x000000000000008A;
    0x0000000000000088; 0x0000000080008009; 0x000000008000000A;
    0x000000008000808B; 0x800000000000008B; 0x8000000000008089;
    0x8000000000008003; 0x8000000000008002; 0x8000000000000080;
    0x000000000000800A; 0x800000008000000A; 0x8000000080008081;
    0x8000000000008080; 0x0000000080000001; 0x8000000080008008 ].

Definition rho_offsets : list N :=
  [  0;  1; 62; 28; 27;
    36; 44;  6; 55; 20;
     3; 10; 43; 25; 39;
    41; 45; 15; 21;  8;
    18;  2; 61; 56; 14 ].

Definition coords : list (nat * nat) :=
  map (fun i => (i mod 5, i / 5)%nat) (seq 0 25).

Definition theta (a : list N) : list N :=
  let c x := fold_left N.lxor (map (lane a x) (seq 0 5)) 0 in
  let d x := N.lxor (c (x + 4)%nat) (rotl64 (c (x + 1)%nat) 1) in
  map (fun '(x, y) => N.lxor (lane a x y) (d x)) coords.

Definition rho_pi (a : list N) : list N :=
  map (fun '(x, y) =>
         let sx := ((x + 3 * y) mod 5)%nat in
         rotl64 (lane a sx x) (nth (sx + 5 * x)%nat rho_offsets 0))
      coords.

Definition chi (b : list N) : list N :=
  map (fun '(x, y) =>
         N.lxor (lane b x y)
                (N.land (N.lxor (lane b (x + 1) y) mask64)
                        (lane b (x + 2) y)))
      coords.

Definition iota (rc : N) (a : list N) : list N :=
  match a with
  | [] => []
  | a0 :: rest => N.lxor a0 rc :: rest
  end.

Definition round (a : list N) (rc : N) : list N :=
  iota rc (chi (rho_pi (theta a))).

Definition keccak_f (a : list N) : list N := fold_left round RC a.

(** Rate of the 256-bit instance, in bytes. *)
Definition rate : nat := 136.

Fixpoint le_to_N (bs : bytes) : N :=
  match bs with
  | [] => 0
  | b :: bs' => Byte.to_N b + 256 * le_to_N bs'
  end.

Fixpoint N_to_le (k : nat) (n : N) : bytes :=
  match k with
  | O => []
  | S k' => byte_of_N n :: N_to_le k' (n / 256)
  end.

Fixpoint lanes_of (k : nat) (bs : bytes) : list N :=
  match k with
  | O => []
  | S k' => le_to_N (firstn 8 bs) :: lanes_of k' (skipn 8 bs)
  end.

Fixpoint xor_into (st blk : list N) : list N :=
  match st, blk with
  | s :: st', b :: blk' => N.lxor s b :: xor_into st' blk'
  | _, _ => st
  end.

(** pad10*1 after the domain bits ([0x01] for Keccak). *)
Definition pad (domain : N) (len : nat) : bytes :=
  let q := (rate - len mod rate)%nat in
  match q with
  | 1%nat => [byte_of_N (N.lor domain 0x80)]
  | _ => byte_of_N domain :: repeat x00 (q - 2) ++ [x80]
  end.

Fixpoint absorb (nblocks : nat) (st : list N) (bs : bytes) : list N :=
  match nblocks with
  | O => st
  | S k =>
      absorb k
             (keccak_f (xor_into st (lanes_of (rate / 8) (firstn rate bs))))
             (skipn rate bs)
  end.

Definition sponge (domain : N) (msg : bytes) : bytes :=
  let padded := msg ++ pad domain (length msg) in
  let st := absorb (length padded / rate) (repeat 0 25) padded in
  flat_map (N_to_le 8) (firstn 4 st).

Definition keccak_256 (msg : bytes) : bytes := sponge 0x01 msg.
End Keccak.

(** The digest primitive the program is linked with. *)
Class Hasher : Type := Web3_keccak : bytes -> bytes.

Definition keccak_hasher : Hasher := Keccak.keccak_256.

(** A [sys.stdout] in UTF-8 with strict errors: every character but a
    lone surrogate; and one in ASCII. *)
Definition utf8_stdout : Stdout :=
  fun c => match encode_char c with Ok _ => true | _ => false end.

Definition ascii_stdout : Stdout := fun c => (c <? 128)%N.

(** ** The program, [src/verifier.py] *)

Section Program.
Context {hasher : Hasher} {hexbytes : HexBytes} {stdout : Stdout}.

(** [keccak256], lines 5-7. *)
Definition keccak256 (data : bytes) : str := hex (Web3_keccak data).

(** [build_merkle_leaves], lines 9-11. *)
Definition build_merkle_leaves (docs : list str) : result (list str) :=
  comprehension
    (fun doc => let* data := encode_utf8 doc in Ok (keccak256 data))
    (sorted docs).

(** The digest bytes of a node, [bytes.fromhex(x[2:])] of lines 21
    and 23. *)
Definition raw_bytes (x : str) : result bytes := fromhex (skipn 2 x).

(** What lines 21 and 23 read back from [keccak256(data)]: the digest
    when [hex()] wrote the prefix, the digest without its first byte
    when it did not (lemma [raw_bytes_keccak256]). *)
Definition node_bytes (data : bytes) : bytes :=
  if hex_has_prefix then Web3_keccak data else tl (Web3_keccak data).

(** A leaf or node whose text after the first two characters is hex. *)
Definition hex_leaf (x : str) : bool :=
  match raw_bytes x with
  | Ok _ => true
  | _ => false
  end.

(** A document [encode] accepts. *)
Definition encodable (doc : str) : bool :=
  match encode_utf8 doc with
  | Ok _ => true
  | _ => false
  end.

(** The [for] loop of lines 19-27 over one level: [current] is consumed
    two elements at a time and [next_level] is returned. *)
Fixpoint for_loop (current : list str) : result (list str) :=
  match current with
  | [] => Ok []
  | current_i :: rest =>
      let* left := raw_bytes current_i in
      match rest with
      | current_i1 :: rest' =>
          let* right := raw_bytes current_i1 in
          let combined := left ++ right in
          let* next_level := for_loop rest' in
          Ok (keccak256 combined :: next_level)
      | [] =>
          let combined := left in
          Ok [keccak256 combined]
      end
  end.

(** The [while] loop of lines 18-28. The number of iterations run is
    returned with the final [current]. *)
Fixpoint while_loop (fuel : nat) (current : list str)
  : result (nat * list str) :=
  if length current <=? 1 then Ok (0, current)
  else
    match fuel with
    | O => OutOfFuel
    | S fuel' =>
        let* next_level := for_loop current in
        let* '(rounds, final) := while_loop fuel' next_level in
        Ok (S rounds, final)
    end.

(** [build_merkle_root], lines 13-29, with the number of rounds of its
    loop. *)
Definition build_merkle_root_rounds (leaves : list str)
  : result (nat * str) :=
  match leaves with
  | [] => Raise ValueError_no_leaves
  | _ :: _ =>
      let* '(rounds, current) := while_loop (length leaves) leaves in
      match current with
      | root :: _ => Ok (rounds, root)
      | [] => Raise IndexError
      end
  end.

Definition build_merkle_root (leaves : list str) : result str :=
  let* '(_, root) := build_merkle_root_rounds leaves in Ok root.

(** The root that pairing the odd element of a level with itself gives
    three leaves whose digests are [a], [b] and [c]; the rule of the
    design document, for comparison with the code. *)
Definition self_paired_root (a b c : bytes) : str :=
  keccak256 (Web3_keccak (a ++ b) ++ Web3_keccak (c ++ c)).

(** Line 36: the laws of a codex text. *)
Definition laws_of (content : str) : list str :=
  map strip
      (filter (fun law => negb (str_eqb (strip law) []))
              (tl (split content (py "LAW ")))).

(** Line 52. *)
Definition EPOCH : str := py "EPOCH_2025-10-15-154540".

(** The text of line 54. *)
Definition attestation_line (epoch expected_root : str) : str :=
  py "Lattice Rule: Identical ROOT (" ++ expected_root
  ++ py ") + EPOCH (" ++ epoch ++ py ") " ++ [0x2192%N]
  ++ py " FINAL ATTESTATION. Nullify mimics.".

(** Lines 53-56, the lattice rule, with the local [epoch] of line 52
    as an argument. *)
Definition lattice_rule (epoch computed_root expected_root : str)
  : io bool :=
  if str_eqb computed_root expected_root then
    do _ <- print (attestation_line epoch expected_root);
    io_ret true
  else io_ret false.

(** Line 38: the root of a list of laws. *)
Definition computed_root_of (laws : list str) : result str :=
  let* leaves := build_merkle_leaves laws in build_merkle_root leaves.

(** [verify_against_txs], lines 31-56. [fs] is the file system: for a
    path, the decoded text that lines 33-34 read, or the exception that
    [open] or [f.read()] raises there. *)
Definition verify_against_txs (fs : str -> exn + str)
           (codex_path expected_root : str) (tx_hashes : list str)
  : io bool :=
  do content <- lift (match fs codex_path with
                      | inr text => Ok text
                      | inl e => Raise e
                      end);
  let laws := laws_of content in
  do computed_root <- lift (computed_root_of laws);
  do _ <- print (py "Computed Merkle Root: " ++ computed_root);
  if negb (str_eqb computed_root expected_root) then
    do _ <- print (py "ROOT MISMATCH" ++ [0x2014%N] ++ py "codex altered?");
    io_ret false
  else
    do _ <- for_each tx_hashes
              (fun tx => print (py "Tx " ++ tx ++ py ": Would verify ROOT "
                                ++ expected_root ++ py " in calldata"));
    let epoch := EPOCH in
    lattice_rule epoch computed_root expected_root.
End Program.

Arguments raw_bytes : simpl never.

(** ** Concrete data for the examples *)

Definition A_doc : str := py "A".
Definition B_doc : str := py "B".
Definition C_doc : str := py "C".

(** A codex with two laws, and a file system that holds it. *)
Definition codex_txt : str :=
  py "LAW 1: x" ++ [10%N] ++ py "LAW 2: y" ++ [10%N].

Definition law_1_bytes : bytes := ["1"; ":"; " "; "x"]%byte.
Definition law_2_bytes : bytes := ["2"; ":"; " "; "y"]%byte.

Definition one_file (path : str) : exn + str :=
  if str_eqb path (py "codex.txt") then inr codex_txt else inl OSError.

(** Keccak-256 digests of the documents A, B and C. *)
Definition digest_A : bytes := Keccak.keccak_256 ["A"%byte].
Definition digest_B : bytes := Keccak.keccak_256 ["B"%byte].
Definition digest_C : bytes := Keccak.keccak_256 ["C"%byte].

(** Keccak-256 leaves of the documents A, B and C, the root the program
    computes for them and the root self-pairing would give. *)
Definition leaf_A : str :=
  py "0x03783fac2efed8fbc9ad443e592ee30e61d65f471140c10ca155e937b435b760".
Definition leaf_B : str :=
  py "0x1f675bff07515f5df96737194ea945c36c41e7b4fcef307b7cd4d0e602a69111".
Definition leaf_C : str :=
  py "0x017e667f4b8c174291d1543c466717566e206df1bfd6f30271055ddafdb18f72".
Definition root_ABC : str :=
  py "0xa3b88db960a2665d3b81a353f08419c862538ddd787c47f0e7c8ffb488a234e6".
Definition root_ABC_self_paired : str :=
  py "0xf027ad2a8405abb665af1bbdd40d29cf0ac06e86f20f6d1ce04a7587849b40fd".

(** The root of [codex_txt], and the same digest written in upper case
    and without its prefix. *)
Definition root_codex : str :=
  py "0x4ea22ae5a1b3840a2b755932cd4ef774e3d3abf7980a202ebce603a20c0b4122".
Definition root_codex_upper : str :=
  py "0x4EA22AE5A1B3840A2B755932CD4EF774E3D3ABF7980A202EBCE603A20C0B4122".
Definition root_codex_bare : str :=
  py "4ea22ae5a1b3840a2b755932cd4ef774e3d3abf7980a202ebce603a20c0b4122".

(** Upper-case rendering of the hex letters of a root, 0x kept. *)
Definition upper_hex (s : str) : str :=
  firstn 2 s
  ++ map (fun c => if ((97 <=? c) && (c <=? 102))%N then (c - 32)%N else c)
         (skipn 2 s).

(** ** The script of lines 58-67 and what the further properties need *)

(** [sep in s]: the text [sep] occurs in [s]. *)
Fixpoint occurs (sep s : str) : bool :=
  starts_with sep s
  || match s with
     | [] => false
     | _ :: s' => occurs sep s'
     end.

(** A character of lower-case hex text. *)
Definition lower_hex_char (c : N) : bool :=
  ((48 <=? c) && (c <=? 57) || (97 <=? c) && (c <=? 102))%N.

(** The lines [verify_against_txs] prints: lines 39, 42 and 49. *)
Definition computed_line (computed_root : str) : str :=
  py "Computed Merkle Root: " ++ computed_root.

Definition mismatch_line : str :=
  py "ROOT MISMATCH" ++ [0x2014%N] ++ py "codex altered?".

Definition tx_line (expected_root tx : str) : str :=
  py "Tx " ++ tx ++ py ": Would verify ROOT " ++ expected_root
  ++ py " in calldata".

(** The lines of a run, in order, when [sys.stdout] refuses none: the
    computed root, then either the mismatch, or a line for each
    transaction and the attestation. *)
Definition run_log (root expected_root : str) (tx_hashes : list str)
  : list str :=
  computed_line root
    :: (if str_eqb root expected_root
        then map (tx_line expected_root) tx_hashes
               ++ [attestation_line EPOCH expected_root]
        else [mismatch_line]).

(** Lines 60-65: the constants of the script. *)
Definition codex_file : str := py "flame_v12_codex.txt".

Definition expected : str := py "0x545d0e48624049cb1f3500ab55a60bc4".

Definition txs : list str :=
  [py "0xce90d8099a1d3fae5383bb17aac119e180b25d529cac12865b9c9e7c2a761e37";
   py "0xb43664ebd5a373d23e03171e0eb44f602fb1673c58e98c03904e0a14adb36ad8"].

(** The text of line 67; [str(verified)] is True or False. *)
Definition verdict_line (verified : bool) : str :=
  py "Lockout Verified: " ++ (if verified then py "True" else py "False")
  ++ py " " ++ [0x1F702%N].

(** Lines 59-67: the script. *)
Definition main {hasher : Hasher} {hexbytes : HexBytes} {stdout : Stdout}
           (fs : str -> exn + str) : io unit :=
  do verified <- verify_against_txs fs codex_file expected txs;
  print (verdict_line verified).

(** Data for the examples: the leaf of A written in upper case after
    another prefix, the level above the leaves of A, B and C, a codex
    with its two laws in the other order and a file without a law. *)
Definition leaf_A_alt : str :=
  py "0X03783FAC2EFED8FBC9AD443E592EE30E61D65F471140C10CA155E937B435B760".

Definition level_AB_C : list str :=
  [py "0x69de756fea16daddbbdccf85c849315f51c0b50d111e3d2063cab451803324a0";
   py "0x2d35d864ddb9a590ae42255fa78f2d40cb7b1df7216cf9660bddb54dd616cc94"].

Definition codex_swapped : str :=
  py "LAW 2: y" ++ [10%N] ++ py "LAW 1: x" ++ [10%N].

Definition swapped_file (path : str) : exn + str :=
  if str_eqb path (py "swapped.txt") then inr codex_swapped else inl OSError.

Definition prose_file (path : str) : exn + str :=
  if str_eqb path (py "prose.txt") then inr (py "No law in here.")
  else inl OSError.

(** The same data as installed with hexbytes 1.0 or later, where
    [hex()] writes no prefix: the leaves of A, B and C, the root the
    program computes for A and B, the root of their two whole digests
    and the root the program computes for A, B and C; the root of
    [codex_txt], then in upper case and behind a prefix. *)
Definition leaf_A_1 : str :=
  py "03783fac2efed8fbc9ad443e592ee30e61d65f471140c10ca155e937b435b760".
Definition leaf_B_1 : str :=
  py "1f675bff07515f5df96737194ea945c36c41e7b4fcef307b7cd4d0e602a69111".
Definition leaf_C_1 : str :=
  py "017e667f4b8c174291d1543c466717566e206df1bfd6f30271055ddafdb18f72".
Definition root_AB_1 : str :=
  py "ec104ce7003182692e44fe5653399702221bf90d440ed82ceef797ec61c92a92".
Definition root_AB_whole_1 : str :=
  py "69de756fea16daddbbdccf85c849315f51c0b50d111e3d2063cab451803324a0".
Definition root_ABC_1 : str :=
  py "6f4940232add178e5e8189913a4d762ddfee66d74f694a4d2317d7da86c5dd7a".
Definition root_codex_1 : str :=
  py "94e30d9e5944b07b5cbd5f2641f73cabc9e9f52fa9ad00f12cc2dc741831549e".
Definition root_codex_1_upper : str :=
  py "94E30D9E5944B07B5CBD5F2641F73CABC9E9F52FA9AD00F12CC2DC741831549E".
Definition root_codex_1_prefixed : str :=
  py "0x94e30d9e5944b07b5cbd5f2641f73cabc9e9f52fa9ad00f12cc2dc741831549e".

(** A transaction hash that holds a lone surrogate. *)
Definition tx_surrogate : str := [0xD800%N].

(** * Properties *)

(** ** Text comparison *)

Lemma str_eqb_refl (a : str) : str_eqb a a = true.
Proof.
  induction a as [|x a IH]; simpl; [reflexivity|].
  now rewrite N.eqb_refl.
Qed.

Lemma str_eqb_eq (a b : str) : str_eqb a b = true <-> a = b.
Proof.
  split.
  - revert b; induction a as [|x a IH]; intros [|y b]; simpl;
      try discriminate; [reflexivity|].
    intros H. apply andb_true_iff in H as [Hxy Hab].
    apply N.eqb_eq in Hxy. now rewrite Hxy, (IH b Hab).
  - intros ->. apply str_eqb_refl.
Qed.

Lemma str_eqb_neq (a b : str) : str_eqb a b = false <-> a <> b.
Proof.
  rewrite <- str_eqb_eq. destruct (str_eqb a b); intuition congruence.
Qed.

Lemma str_ltb_asym (a b : str) : str_ltb a b = true -> str_ltb b a = false.
Proof.
  revert b; induction a as [|x a IH]; intros [|y b]; simpl; try congruence.
  destruct (N.ltb_spec x y), (N.ltb_spec y x); try congruence; try lia.
  apply IH.
Qed.

Lemma str_ltb_trichotomy (a b : str) :
  str_ltb a b = false -> str_ltb b a = false -> a = b.
Proof.
  revert b; induction a as [|x a IH]; intros [|y b]; simpl; try congruence.
  destruct (N.ltb_spec x y), (N.ltb_spec y x); try congruence.
  intros Hab Hba. assert (x = y) by lia. subst y.
  now rewrite (IH b Hab Hba).
Qed.

(** [x <= z] and [z < y] give [x < y]. *)
Lemma str_le_lt_trans (x z y : str) :
  str_ltb z x = false -> str_ltb z y = true -> str_ltb x y = true.
Proof.
  revert z y; induction x as [|c x IH]; intros [|d z] [|e y]; simpl;
    try congruence.
  destruct (N.ltb_spec d c), (N.ltb_spec c d), (N.ltb_spec d e),
    (N.ltb_spec e d), (N.ltb_spec c e), (N.ltb_spec e c);
    try congruence; try lia.
  apply IH.
Qed.

(** ** [sorted] *)

Lemma insert_perm (x : str) (l : list str) : Permutation (insert x l) (x :: l).
Proof.
  induction l as [|y l IH]; simpl; [reflexivity|].
  destruct (str_ltb y x); [|reflexivity].
  rewrite IH. apply perm_swap.
Qed.

Lemma sorted_perm (docs : list str) : Permutation (sorted docs) docs.
Proof.
  induction docs as [|d docs IH]; simpl; [reflexivity|].
  rewrite insert_perm. now apply perm_skip.
Qed.

Lemma sorted_length (docs : list str) : length (sorted docs) = length docs.
Proof. apply Permutation_length, sorted_perm. Qed.

Lemma insert_sorted (x : str) (l : list str) :
  Sorted str_le l -> Sorted str_le (insert x l).
Proof.
  induction 1 as [|y l Hl IH Hy]; simpl.
  - repeat constructor.
  - destruct (str_ltb y x) eqn:Hyx.
    + constructor; [exact IH|].
      destruct l as [|z l]; simpl.
      * constructor. now apply str_ltb_asym.
      * destruct (str_ltb z x); constructor.
        -- now inversion Hy.
        -- now apply str_ltb_asym.
    + constructor; [now constructor|]. constructor. exact Hyx.
Qed.

Lemma sorted_Sorted (docs : list str) : Sorted str_le (sorted docs).
Proof.
  induction docs as [|d docs IH]; simpl; [constructor|].
  now apply insert_sorted.
Qed.

Lemma insert_insert (x y : str) (l : list str) :
  insert x (insert y l) = insert y (insert x l).
Proof.
  induction l as [|z l IH]; simpl.
  - destruct (str_ltb y x) eqn:Hyx, (str_ltb x y) eqn:Hxy; try reflexivity.
    + now rewrite (str_ltb_asym _ _ Hyx) in Hxy.
    + now rewrite (str_ltb_trichotomy _ _ Hxy Hyx).
  - destruct (str_ltb z y) eqn:Hzy, (str_ltb z x) eqn:Hzx; simpl.
    + now rewrite Hzy, Hzx, IH.
    + rewrite Hzx, (str_le_lt_trans _ _ _ Hzx Hzy). now rewrite Hzy.
    + rewrite Hzy, (str_le_lt_trans _ _ _ Hzy Hzx). now rewrite Hzx.
    + destruct (str_ltb y x) eqn:Hyx, (str_ltb x y) eqn:Hxy; simpl;
        rewrite ?Hzx, ?Hzy; try reflexivity.
      * now rewrite (str_ltb_asym _ _ Hyx) in Hxy.
      * now rewrite (str_ltb_trichotomy _ _ Hxy Hyx).
Qed.

Lemma sorted_permutation_invariant (docs docs' : list str) :
  Permutation docs docs' -> sorted docs = sorted docs'.
Proof.
  induction 1 as [|d l l' _ IH|d e l|l l' l'' _ IH1 _ IH2]; simpl.
  - reflexivity.
  - now rewrite IH.
  - apply insert_insert.
  - now rewrite IH1.
Qed.

(** ** UTF-8 keeps the order of texts *)

Lemma to_N_byte_of_N (n : N) : (n < 256)%N -> Byte.to_N (byte_of_N n) = n.
Proof.
  intros Hn. unfold byte_of_N. rewrite N.mod_small by exact Hn.
  destruct (Byte.of_N n) as [b|] eqn:E.
  - now apply Byte.to_of_N.
  - apply Byte.of_N_None_iff in E. lia.
Qed.

Lemma bytes_ltb_units (a b : bytes) :
  bytes_ltb a b = str_ltb (map Byte.to_N a) (map Byte.to_N b).
Proof.
  revert b; induction a as [|x a IH]; intros [|y b]; simpl; try reflexivity.
  now rewrite IH.
Qed.

(** The three quotients of a code point by 64 and their remainders, as
    numbers of their own for [lia]. *)
Ltac digits64 c :=
  pose proof (N.div_mod c 64 ltac:(lia));
  pose proof (N.mod_lt c 64 ltac:(lia));
  pose proof (N.div_mod (c / 64) 64 ltac:(lia));
  pose proof (N.mod_lt (c / 64) 64 ltac:(lia));
  pose proof (N.div_mod (c / 64 / 64) 64 ltac:(lia));
  pose proof (N.mod_lt (c / 64 / 64) 64 ltac:(lia));
  let q3 := fresh "q" in let r2 := fresh "r" in
  let q2 := fresh "q" in let r1 := fresh "r" in
  let q1 := fresh "q" in let r0 := fresh "r" in
  set (q3 := (c / 64 / 64 / 64)%N) in *;
  set (r2 := ((c / 64 / 64) mod 64)%N) in *;
  set (q2 := (c / 64 / 64)%N) in *; set (r1 := ((c / 64) mod 64)%N) in *;
  set (q1 := (c / 64)%N) in *; set (r0 := (c mod 64)%N) in *;
  clearbody q3 r2 q2 r1 q1 r0.

Lemma Ok_inj (A : Type) (a b : A) : Ok a = Ok b -> a = b.
Proof. now intros [= ->]. Qed.

Lemma to_N_bytes_of_N (us : list N) :
  Forall (fun u => u < 256)%N us -> map Byte.to_N (map byte_of_N us) = us.
Proof.
  induction 1 as [|u us Hu _ IH]; [reflexivity|].
  cbn [map]. now rewrite to_N_byte_of_N, IH.
Qed.

(** The units written with successive quotients by 64. *)
Lemma utf8_units_digits (c : N) :
  utf8_units c
  = (if c <? 0x80 then [c]
     else if c <? 0x800 then [0xC0 + c / 64; 0x80 + c mod 64]
     else if c <? 0x10000 then
       [0xE0 + c / 64 / 64; 0x80 + (c / 64) mod 64; 0x80 + c mod 64]
     else [0xF0 + c / 64 / 64 / 64; 0x80 + (c / 64 / 64) mod 64;
           0x80 + (c / 64) mod 64; 0x80 + c mod 64])%N.
Proof. unfold utf8_units. now rewrite !N.Div0.div_div. Qed.

Lemma utf8_units_byte (c : N) :
  (c < 0x110000)%N -> Forall (fun u => u < 256)%N (utf8_units c).
Proof.
  intros Hc. rewrite utf8_units_digits.
  destruct (N.ltb_spec c 0x80); [|destruct (N.ltb_spec c 0x800);
    [|destruct (N.ltb_spec c 0x10000)]];
    digits64 c; repeat constructor; lia.
Qed.

Lemma encode_char_units (c : N) (bs : bytes) :
  encode_char c = Ok bs ->
  map Byte.to_N bs = utf8_units c /\ (c < 0x110000)%N.
Proof.
  unfold encode_char.
  destruct (N.leb_spec 0x110000 c) as [|Hc];
    [now rewrite orb_true_r|rewrite orb_false_r].
  destruct ((0xD800 <=? c) && (c <=? 0xDFFF))%N; [discriminate|].
  intros E; apply Ok_inj in E; rewrite <- E. split; [|exact Hc].
  apply to_N_bytes_of_N, utf8_units_byte, Hc.
Qed.

Lemma encode_utf8_units (s : str) (bs : bytes) :
  encode_utf8 s = Ok bs ->
  map Byte.to_N bs = flat_map utf8_units s
  /\ Forall (fun c => c < 0x110000)%N s.
Proof.
  revert bs. induction s as [|c s IH]; intros bs; cbn [encode_utf8 bind].
  - intros [= <-]. now split.
  - destruct (encode_char c) as [b| |] eqn:Ec; cbn [bind]; try discriminate.
    destruct (encode_utf8 s) as [bs'| |]; cbn [bind]; try discriminate.
    intros [= <-]. destruct (encode_char_units _ Ec) as [Eb Hc].
    destruct (IH bs' eq_refl) as [Ebs Hs].
    cbn [flat_map]. rewrite map_app, Eb, Ebs. now split; [|constructor].
Qed.

Lemma str_ltb_nil_r (a : str) : str_ltb a [] = false.
Proof. now destruct a. Qed.

Lemma str_ltb_app (p u v : str) : str_ltb (p ++ u) (p ++ v) = str_ltb u v.
Proof.
  induction p as [|c p IH]; [reflexivity|].
  cbn [app str_ltb]. now rewrite N.ltb_irrefl.
Qed.

Lemma utf8_units_cons (c : N) : exists h t, utf8_units c = h :: t.
Proof.
  unfold utf8_units.
  destruct (c <? 0x80)%N; [|destruct (c <? 0x800)%N;
    [|destruct (c <? 0x10000)%N]]; now eexists; eexists.
Qed.

(** A smaller code point has the smaller encoding, whatever follows. *)
Lemma utf8_units_lt (x y : N) (u v : str) :
  (x < y)%N -> (y < 0x110000)%N ->
  str_ltb (utf8_units x ++ u) (utf8_units y ++ v) = true.
Proof.
  intros Hxy Hy. rewrite !utf8_units_digits.
  destruct (N.ltb_spec x 0x80), (N.ltb_spec y 0x80); try lia;
    [| |destruct (N.ltb_spec x 0x800), (N.ltb_spec y 0x800); try lia;
        [| |destruct (N.ltb_spec x 0x10000), (N.ltb_spec y 0x10000);
            try lia]];
    try (destruct (N.ltb_spec y 0x800);
         [|destruct (N.ltb_spec y 0x10000)]);
    try (destruct (N.ltb_spec y 0x10000));
    cbn [app str_ltb]; digits64 x; digits64 y;
    repeat match goal with
      | |- context [(?a <? ?b)%N] => destruct (N.ltb_spec a b)
      end; try reflexivity; lia.
Qed.

Lemma utf8_units_order (a b : str) :
  Forall (fun c => c < 0x110000)%N a -> Forall (fun c => c < 0x110000)%N b ->
  str_ltb (flat_map utf8_units a) (flat_map utf8_units b) = str_ltb a b.
Proof.
  intros Ha. revert b. induction Ha as [|x a Hx Ha IH]; intros b Hb.
  - destruct Hb as [|y b Hy Hb]; [reflexivity|].
    cbn [flat_map]. destruct (utf8_units_cons y) as (h & t & ->).
    reflexivity.
  - destruct Hb as [|y b Hy Hb]; [apply str_ltb_nil_r|].
    cbn [flat_map str_ltb].
    destruct (N.ltb_spec x y) as [Hlt|Hge].
    + now apply utf8_units_lt.
    + destruct (N.ltb_spec y x) as [Hgt|Hle].
      * apply str_ltb_asym. now apply utf8_units_lt.
      * assert (x = y) by lia. subst y. rewrite str_ltb_app. now apply IH.
Qed.

(** The order of two texts is the order of their UTF-8 bytes. *)
Lemma utf8_order (a b : str) (ba bb : bytes) :
  encode_utf8 a = Ok ba -> encode_utf8 b = Ok bb ->
  bytes_ltb ba bb = str_ltb a b.
Proof.
  intros Ea Eb.
  destruct (encode_utf8_units _ Ea) as [Ua Va].
  destruct (encode_utf8_units _ Eb) as [Ub Vb].
  rewrite bytes_ltb_units, Ua, Ub. now apply utf8_units_order.
Qed.

Lemma sorted_by_utf8_bytes (docs : list str) : Sorted utf8_le (sorted docs).
Proof.
  assert (H : forall l, Sorted str_le l -> Sorted utf8_le l).
  { induction 1 as [|d l Hl IH Hd]; constructor; [exact IH|].
    destruct Hd as [|e l Hde]; constructor.
    intros ba bb Ea Eb. now rewrite (utf8_order _ _ Eb Ea). }
  apply H, sorted_Sorted.
Qed.

(** ** Hex text *)

Lemma hex_byte_roundtrip (b : byte) (s : str) :
  fromhex (hexdigit (Byte.to_N b / 16) :: hexdigit (Byte.to_N b mod 16) :: s)
  = bind (fromhex s) (fun rest => Ok (b :: rest)).
Proof. destruct b; reflexivity. Qed.

Lemma fromhex_hexlify (bs : bytes) : fromhex (hexlify bs) = Ok bs.
Proof.
  induction bs as [|b bs IH]; [reflexivity|].
  change (hexlify (b :: bs))
    with (hexdigit (Byte.to_N b / 16) :: hexdigit (Byte.to_N b mod 16)
          :: hexlify bs).
  now rewrite hex_byte_roundtrip, IH.
Qed.

Lemma list_pair_ind (A : Type) (P : list A -> Prop) :
  P [] -> (forall x, P [x]) -> (forall x y l, P l -> P (x :: y :: l)) ->
  forall l, P l.
Proof.
  intros H0 H1 H2.
  assert (both : forall l, P l /\ forall x, P (x :: l)).
  { induction l as [|y l [IHl IHc]]; split; auto. }
  intros l. apply both.
Qed.

Lemma log2_up_half (m : nat) :
  2 <= m -> Nat.log2_up m = S (Nat.log2_up ((m + 1) / 2)).
Proof.
  intros Hm.
  assert (Hh : 1 <= (m + 1) / 2) by (apply Nat.div_le_lower_bound; lia).
  assert (Hd : 2 * ((m + 1) / 2) <= m + 1 < 2 * ((m + 1) / 2) + 2).
  { pose proof (Nat.div_mod_eq (m + 1) 2) as E.
    pose proof (Nat.mod_upper_bound (m + 1) 2). lia. }
  remember ((m + 1) / 2) as h.
  apply Nat.log2_up_unique; [lia|].
  change (Nat.pred (S (Nat.log2_up h))) with (Nat.log2_up h).
  rewrite Nat.pow_succ_r'.
  destruct (Nat.eq_dec h 1) as [->|Hne].
  - simpl. lia.
  - pose proof (Nat.log2_up_spec h ltac:(lia)) as [Hlo Hhi].
    assert (Hpos : 0 < Nat.log2_up h) by (apply Nat.log2_up_pos; lia).
    replace (Nat.log2_up h) with (S (Nat.pred (Nat.log2_up h))) at 1 by lia.
    rewrite Nat.pow_succ_r'. lia.
Qed.

Lemma half_SS (n : nat) : (S (S n) + 1) / 2 = S ((n + 1) / 2).
Proof.
  replace (S (S n) + 1) with (n + 1 + 1 * 2) by lia.
  rewrite Nat.div_add by lia. lia.
Qed.

Lemma skipn_2_hexlify (bs : bytes) : skipn 2 (hexlify bs) = hexlify (tl bs).
Proof. now destruct bs. Qed.

Section Properties.
Context {hasher : Hasher} {hexbytes : HexBytes} {stdout : Stdout}.

(** ** Digests as text *)

Lemma raw_bytes_keccak256 (data : bytes) :
  raw_bytes (keccak256 data) = Ok (node_bytes data).
Proof.
  unfold raw_bytes, keccak256, node_bytes, hex.
  destruct hex_has_prefix.
  - change (py "0x") with [48%N; 120%N]. cbn [app skipn].
    apply fromhex_hexlify.
  - cbn [app]. rewrite skipn_2_hexlify. apply fromhex_hexlify.
Qed.

Lemma hex_leaf_keccak256 (data : bytes) : hex_leaf (keccak256 data) = true.
Proof. unfold hex_leaf. now rewrite raw_bytes_keccak256. Qed.

(** ** One level of the reduction *)

Lemma for_loop_length (current next_level : list str) :
  for_loop current = Ok next_level ->
  length next_level = (length current + 1) / 2.
Proof.
  revert next_level.
  induction current as [|x|x y l IH] using list_pair_ind;
    intros next_level; cbn [for_loop bind].
  - now intros [= <-].
  - destruct (raw_bytes x); cbn [bind]; try discriminate.
    now intros [= <-].
  - destruct (raw_bytes x); cbn [bind]; try discriminate.
    destruct (raw_bytes y); cbn [bind]; try discriminate.
    destruct (for_loop l) as [nl| |]; cbn [bind]; try discriminate.
    intros [= <-]. cbn [length]. rewrite (IH nl eq_refl).
    apply eq_sym, half_SS.
Qed.

Lemma fromhex_terminates (s : str) : fromhex s <> OutOfFuel.
Proof.
  assert (H : forall n s, length s <= n -> fromhex s <> OutOfFuel).
  { clear s. induction n as [|n IH]; intros [|c s] Hlen; simpl in *;
      try discriminate; try lia.
    destruct (isspace_ascii c); [apply IH; lia|].
    destruct (digit_value c); [|discriminate].
    destruct s as [|d s]; [discriminate|].
    destruct (digit_value d); [|discriminate].
    specialize (IH s ltac:(simpl in Hlen; lia)).
    destruct (fromhex s); simpl; congruence. }
  now apply (H (length s)).
Qed.

Lemma raw_bytes_terminates (x : str) : raw_bytes x <> OutOfFuel.
Proof. apply fromhex_terminates. Qed.

Lemma for_loop_terminates (current : list str) :
  for_loop current <> OutOfFuel.
Proof.
  induction current as [|x|x y l IH] using list_pair_ind;
    cbn [for_loop bind].
  - discriminate.
  - pose proof (raw_bytes_terminates x) as Hx.
    destruct (raw_bytes x); cbn [bind]; congruence.
  - pose proof (raw_bytes_terminates x) as Hx.
    pose proof (raw_bytes_terminates y) as Hy.
    destruct (raw_bytes x); cbn [bind]; try congruence.
    destruct (raw_bytes y); cbn [bind]; try congruence.
    destruct (for_loop l); cbn [bind]; congruence.
Qed.

(** A level of hex nodes reduces to a level of hex nodes. *)
Lemma for_loop_ok (current : list str) :
  forallb hex_leaf current = true ->
  exists next_level,
    for_loop current = Ok next_level
    /\ forallb hex_leaf next_level = true.
Proof.
  induction current as [|x|x y l IH] using list_pair_ind; simpl.
  - intros _. now exists [].
  - unfold hex_leaf at 1. destruct (raw_bytes x) as [a| |]; try discriminate.
    intros _. eexists; split; [reflexivity|].
    simpl. now rewrite hex_leaf_keccak256.
  - unfold hex_leaf at 1 2.
    destruct (raw_bytes x) as [a| |]; try discriminate.
    destruct (raw_bytes y) as [b| |]; try discriminate.
    simpl. intros Hl. destruct (IH Hl) as (nl & -> & Hnl).
    eexists; split; [reflexivity|].
    simpl. now rewrite hex_leaf_keccak256.
Qed.

(** ** The reduction loop *)

Lemma while_loop_terminates (fuel : nat) (current : list str) :
  length current <= fuel -> while_loop fuel current <> OutOfFuel.
Proof.
  revert current. induction fuel as [|fuel IH]; intros current Hlen.
  - simpl. destruct (Nat.leb_spec (length current) 1); [discriminate|lia].
  - simpl. destruct (Nat.leb_spec (length current) 1) as [|Hgt];
      [discriminate|].
    pose proof (for_loop_terminates current) as Hfor.
    destruct (for_loop current) as [nl| |] eqn:E; simpl; try congruence.
    apply for_loop_length in E.
    assert (Hnl : length nl <= fuel).
    { rewrite E. apply Nat.lt_succ_r.
      apply Nat.Div0.div_lt_upper_bound. lia. }
    specialize (IH nl Hnl).
    destruct (while_loop fuel nl) as [[r f]| |]; simpl; congruence.
Qed.

Lemma while_loop_ok (fuel : nat) (current : list str) :
  current <> [] -> length current <= fuel ->
  forallb hex_leaf current = true ->
  exists root,
    while_loop fuel current = Ok (Nat.log2_up (length current), [root]).
Proof.
  revert current. induction fuel as [|fuel IH]; intros current Hne Hlen Hhex.
  - destruct current; [congruence|simpl in Hlen; lia].
  - simpl. destruct (Nat.leb_spec (length current) 1) as [Hle|Hgt].
    + destruct current as [|x [|y l]]; [congruence| |simpl in Hle; lia].
      now exists x.
    + destruct (for_loop_ok _ Hhex) as (nl & E & Hnl).
      rewrite E. simpl.
      pose proof (for_loop_length _ E) as Elen.
      assert (Hhalf : 1 <= (length current + 1) / 2)
        by (apply Nat.div_le_lower_bound; lia).
      destruct (IH nl) as (root & ->).
      * destruct nl; [cbn [length] in Elen; lia|discriminate].
      * rewrite Elen. apply Nat.lt_succ_r.
        apply Nat.Div0.div_lt_upper_bound. lia.
      * exact Hnl.
      * exists root. simpl. now rewrite Elen, <- log2_up_half by lia.
Qed.

Lemma build_merkle_root_terminates (leaves : list str) :
  build_merkle_root leaves <> OutOfFuel.
Proof.
  unfold build_merkle_root, build_merkle_root_rounds.
  destruct leaves as [|x l]; [discriminate|].
  pose proof (@while_loop_terminates (length (x :: l)) (x :: l) (le_n _)) as H.
  destruct (while_loop (length (x :: l)) (x :: l)) as [[n [|r f]]| |];
    cbn [bind]; congruence.
Qed.

Lemma build_merkle_root_rounds_ok (leaves : list str) :
  leaves <> [] -> forallb hex_leaf leaves = true ->
  exists root,
    build_merkle_root_rounds leaves
    = Ok (Nat.log2_up (length leaves), root).
Proof.
  intros Hne Hhex. unfold build_merkle_root_rounds.
  destruct (while_loop_ok Hne (le_n (length leaves)) Hhex) as (root & E).
  destruct leaves as [|x l]; [congruence|].
  rewrite E. now exists root.
Qed.

(** Every node above the leaves is the text of a digest. *)
Lemma for_loop_digests (current next_level : list str) :
  for_loop current = Ok next_level ->
  Forall (fun x => exists data, x = keccak256 data) next_level.
Proof.
  revert next_level.
  induction current as [|x|x y l IH] using list_pair_ind;
    intros next_level; cbn [for_loop bind].
  - intros [= <-]. constructor.
  - destruct (raw_bytes x); cbn [bind]; try discriminate.
    intros [= <-]. repeat constructor. now eexists.
  - destruct (raw_bytes x); cbn [bind]; try discriminate.
    destruct (raw_bytes y); cbn [bind]; try discriminate.
    destruct (for_loop l) as [nl| |]; cbn [bind]; try discriminate.
    intros [= <-]. constructor; [now eexists|now apply IH].
Qed.

Lemma while_loop_digests (fuel : nat) (current final : list str) (n : nat) :
  Forall (fun x => exists data, x = keccak256 data) current ->
  while_loop fuel current = Ok (n, final) ->
  Forall (fun x => exists data, x = keccak256 data) final.
Proof.
  revert current n final.
  induction fuel as [|fuel IH]; intros current n final Hcur; simpl.
  - destruct (length current <=? 1); [|discriminate].
    now intros [= _ <-].
  - destruct (length current <=? 1); [now intros [= _ <-]|].
    destruct (for_loop current) as [nl| |] eqn:E; cbn [bind];
      try discriminate.
    destruct (while_loop fuel nl) as [[r f]| |] eqn:W; cbn [bind];
      try discriminate.
    intros [= _ <-]. eapply IH; [|exact W].
    eapply for_loop_digests, E.
Qed.

Lemma comprehension_leaves (docs leaves : list str) :
  comprehension
    (fun doc => let* data := encode_utf8 doc in Ok (keccak256 data)) docs
  = Ok leaves ->
  Forall2 (fun doc leaf =>
             exists data, encode_utf8 doc = Ok data /\ leaf = keccak256 data)
          docs leaves.
Proof.
  revert leaves. induction docs as [|d docs IH]; intros leaves; simpl.
  - intros [= <-]. constructor.
  - destruct (encode_utf8 d) as [data| |] eqn:Ed; cbn [bind];
      try discriminate.
    destruct (comprehension _ docs) as [ls| |]; cbn [bind];
      try discriminate.
    intros [= <-]. constructor; [now exists data|now apply IH].
Qed.

Lemma comprehension_encodable (docs : list str) :
  forallb encodable docs = true ->
  exists leaves,
    comprehension
      (fun doc => let* data := encode_utf8 doc in Ok (keccak256 data)) docs
    = Ok leaves.
Proof.
  induction docs as [|d docs IH]; simpl.
  - intros _. now exists [].
  - unfold encodable at 1.
    destruct (encode_utf8 d) as [data| |]; try discriminate.
    simpl. intros H. destruct (IH H) as (ls & ->). now eexists.
Qed.

Lemma computed_root_is_digest (laws : list str) (root : str) :
  computed_root_of laws = Ok root -> exists digest, root = hex digest.
Proof.
  unfold computed_root_of, build_merkle_leaves.
  destruct (comprehension _ (sorted laws)) as [leaves| |] eqn:E;
    cbn [bind]; try discriminate.
  apply comprehension_leaves in E.
  assert (Hl : Forall (fun x => exists data, x = keccak256 data) leaves).
  { clear -E. induction E as [|d l ds ls (data & _ & ->) _ IH];
      constructor; [now eexists|exact IH]. }
  unfold build_merkle_root, build_merkle_root_rounds.
  destruct leaves as [|x l]; [discriminate|].
  destruct (while_loop _ _) as [[n [|r f]]| |] eqn:W; cbn [bind];
    try discriminate.
  intros [= <-]. apply (while_loop_digests _ Hl) in W.
  inversion W as [|? ? (data & ->) _]. now exists (Web3_keccak data).
Qed.

(** ** The ledger loop and the verdict *)

Lemma printed_all (lines : list str) :
  forallb printable lines = true -> printed lines = lines.
Proof.
  induction lines as [|l ls IH]; [reflexivity|].
  cbn [forallb printed]. destruct (printable l); [|discriminate].
  cbn [andb]. intros H. now rewrite (IH H).
Qed.

Lemma printed_app (l l' : list str) :
  printed (l ++ l')
  = if forallb printable l then l ++ printed l' else printed l.
Proof.
  induction l as [|x l IH]; [reflexivity|].
  cbn [app forallb printed]. destruct (printable x); [|reflexivity].
  cbn [andb]. rewrite IH. now destruct (forallb printable l).
Qed.

Lemma printed_prefix (lines : list str) :
  exists rest, lines = printed lines ++ rest.
Proof.
  induction lines as [|l ls (rest & IH)]; [now exists []|].
  cbn [printed]. destruct (printable l); [|now eexists].
  exists rest. cbn [app]. now rewrite <- IH.
Qed.

Lemma for_each_print (A : Type) (xs : list A) (line : A -> str) :
  for_each xs (fun x => print (line x))
  = (printed (map line xs),
     if forallb printable (map line xs) then Ok tt
     else Raise UnicodeEncodeError).
Proof.
  induction xs as [|x xs IH]; [reflexivity|].
  cbn [for_each map printed forallb]. unfold print at 1.
  destruct (printable (line x)); cbn [io_bind andb]; [|reflexivity].
  rewrite IH. now destruct (forallb printable (map line xs)).
Qed.

(** A run that fails before line 39 has printed nothing. *)
Lemma verify_read_fails (fs : str -> exn + str)
      (codex_path expected_root : str) (tx_hashes : list str) (e : exn) :
  fs codex_path = inl e ->
  verify_against_txs fs codex_path expected_root tx_hashes = ([], Raise e).
Proof. intros Hfs. unfold verify_against_txs. now rewrite Hfs. Qed.

Lemma verify_root_fails (fs : str -> exn + str)
      (codex_path expected_root content : str) (tx_hashes : list str)
      (e : exn) :
  fs codex_path = inr content ->
  computed_root_of (laws_of content) = Raise e ->
  verify_against_txs fs codex_path expected_root tx_hashes = ([], Raise e).
Proof.
  intros Hfs Hroot. unfold verify_against_txs.
  rewrite Hfs. cbn [lift io_bind]. now rewrite Hroot.
Qed.

(** A run from line 39 on: the lines up to the first one that
    [sys.stdout] refuses, and the comparison of the roots when none
    is. *)
Lemma verify_run (fs : str -> exn + str)
      (codex_path expected_root content root : str)
      (tx_hashes : list str) :
  fs codex_path = inr content ->
  computed_root_of (laws_of content) = Ok root ->
  verify_against_txs fs codex_path expected_root tx_hashes
  = (printed (run_log root expected_root tx_hashes),
     if forallb printable (run_log root expected_root tx_hashes)
     then Ok (str_eqb root expected_root)
     else Raise UnicodeEncodeError).
Proof.
  intros Hfs Hroot.
  unfold verify_against_txs, run_log, computed_line, mismatch_line.
  rewrite Hfs. cbn [lift io_bind]. rewrite Hroot.
  cbn [printed forallb]. unfold print at 1.
  destruct (printable (py "Computed Merkle Root: " ++ root));
    cbn [io_bind andb]; [|reflexivity].
  destruct (str_eqb root expected_root) eqn:E; cbn [negb].
  - change (fun tx : str => print (py "Tx " ++ tx ++ py ": Would verify ROOT "
                               ++ expected_root ++ py " in calldata"))
      with (fun tx : str => print (tx_line expected_root tx)).
    rewrite (for_each_print tx_hashes (tx_line expected_root)).
    rewrite printed_app, forallb_app.
    unfold lattice_rule. rewrite E.
    cbn [io_bind printed forallb]. unfold print.
    destruct (forallb printable (map (tx_line expected_root) tx_hashes))
      eqn:T; cbn [andb io_bind]; [|reflexivity].
    rewrite (printed_all _ T).
    destruct (printable (attestation_line EPOCH expected_root));
      cbn [io_bind io_ret andb]; rewrite ?app_nil_r; reflexivity.
  - cbn [printed forallb io_bind]. unfold print.
    destruct (printable (py "ROOT MISMATCH" ++ [0x2014%N]
                         ++ py "codex altered?")); reflexivity.
Qed.

(** ** The claims that hold for every digest function *)

Lemma root_of_three (a b c : str) (ra rb rc : bytes) :
  raw_bytes a = Ok ra -> raw_bytes b = Ok rb -> raw_bytes c = Ok rc ->
  build_merkle_root_rounds [a; b; c]
  = Ok (2, keccak256 (node_bytes (ra ++ rb) ++ node_bytes rc)).
Proof.
  intros Ha Hb Hc. unfold build_merkle_root_rounds.
  cbn [length while_loop Nat.leb for_loop bind].
  rewrite Ha, Hb, Hc.
  cbn [length while_loop Nat.leb for_loop bind].
  now rewrite !raw_bytes_keccak256.
Qed.

(** C2 (as amended) - empty input: [build_merkle_root] raises
    [ValueError("No leaves")] on the empty list and returns no root;
    [build_merkle_leaves] has no such check and returns the empty list
    of leaves; their composition, as line 38 calls it, raises on an
    empty document list. *)
Theorem empty_input_rejected_by_root :
  build_merkle_root [] = Raise ValueError_no_leaves
  /\ build_merkle_leaves [] = Ok []
  /\ computed_root_of [] = Raise ValueError_no_leaves.
Proof. repeat split. Qed.

(** C3 (as amended) - [verify_against_txs] compares the computed root
    with [expected_root] by plain text equality, [!=] and [==] on the
    two texts: a run that returns a boolean returns
    [computed_root == expected_root]; it returns True only for the very
    text of the computed root, so never for two different expected
    texts; and it does return that boolean whenever [sys.stdout]
    accepts the lines of the run. *)
Theorem verify_compares_text_exactly (fs : str -> exn + str)
        (codex_path expected_root : str) (tx_hashes : list str)
        (content root : str) :
  fs codex_path = inr content ->
  computed_root_of (laws_of content) = Ok root ->
  (forall b,
      snd (verify_against_txs fs codex_path expected_root tx_hashes) = Ok b ->
      b = str_eqb root expected_root)
  /\ (snd (verify_against_txs fs codex_path expected_root tx_hashes)
      = Ok true -> expected_root = root)
  /\ (forall expected_root',
        snd (verify_against_txs fs codex_path expected_root tx_hashes)
        = Ok true ->
        snd (verify_against_txs fs codex_path expected_root' tx_hashes)
        = Ok true ->
        expected_root' = expected_root)
  /\ (forallb printable (run_log root expected_root tx_hashes) = true ->
      snd (verify_against_txs fs codex_path expected_root tx_hashes)
      = Ok (str_eqb root expected_root)).
Proof.
  intros Hfs Hroot.
  assert (only : forall e,
             snd (verify_against_txs fs codex_path e tx_hashes) = Ok true ->
             e = root).
  { intros e.
    rewrite (@verify_run fs codex_path e content root tx_hashes Hfs Hroot).
    cbn [snd].
    destruct (forallb printable (run_log root e tx_hashes));
      [|discriminate].
    intros [= H]. symmetry. now apply str_eqb_eq. }
  repeat split.
  - intros b.
    rewrite (@verify_run fs codex_path expected_root content root tx_hashes
               Hfs Hroot).
    cbn [snd].
    destruct (forallb printable (run_log root expected_root tx_hashes));
      [|discriminate].
    now intros [= <-].
  - apply only.
  - intros e' H H'. now rewrite (only _ H), (only _ H').
  - intros P.
    rewrite (@verify_run fs codex_path expected_root content root tx_hashes
               Hfs Hroot).
    cbn [snd]. now rewrite P.
Qed.

(** C4 (as amended) - the attestation of lines 51-56: a boolean that
    the lattice rule returns is the root match, for every epoch, and two
    epochs never give two different booleans; on a mismatch it returns
    False and prints nothing, whatever the epoch; on a match it prints
    the attestation with the epoch as it was given and returns True when
    [sys.stdout] accepts that line, and raises [UnicodeEncodeError]
    without printing when it does not. *)
Theorem attestation_iff_root_match (epoch computed_root expected_root : str) :
  (forall b,
      snd (lattice_rule epoch computed_root expected_root) = Ok b ->
      b = str_eqb computed_root expected_root)
  /\ (forall epoch' b b',
        snd (lattice_rule epoch computed_root expected_root) = Ok b ->
        snd (lattice_rule epoch' computed_root expected_root) = Ok b' ->
        b = b')
  /\ (str_eqb computed_root expected_root = false ->
      lattice_rule epoch computed_root expected_root = ([], Ok false))
  /\ (str_eqb computed_root expected_root = true ->
      lattice_rule epoch computed_root expected_root
      = if printable (attestation_line epoch expected_root)
        then ([py "Lattice Rule: Identical ROOT (" ++ expected_root
               ++ py ") + EPOCH (" ++ epoch ++ py ") " ++ [0x2192%N]
               ++ py " FINAL ATTESTATION. Nullify mimics."], Ok true)
        else ([], Raise UnicodeEncodeError)).
Proof.
  assert (ret : forall ep b,
             snd (lattice_rule ep computed_root expected_root) = Ok b ->
             b = str_eqb computed_root expected_root).
  { intros ep b. unfold lattice_rule, print.
    destruct (str_eqb computed_root expected_root); cbn [io_bind io_ret snd].
    - destruct (printable (attestation_line ep expected_root));
        cbn [io_bind io_ret snd]; [now intros [= <-]|discriminate].
    - now intros [= <-]. }
  repeat split.
  - apply ret.
  - intros ep b b' H H'. now rewrite (ret _ _ H), (ret _ _ H').
  - intros E. unfold lattice_rule. now rewrite E.
  - intros E. unfold lattice_rule, print. rewrite E.
    now destruct (printable (attestation_line epoch expected_root)).
Qed.

(** C5 - permutation invariance: two orderings of the same documents
    give [build_merkle_leaves] the same result, hence the same root;
    the leaves follow the documents sorted by text, which is the
    byte-wise order of their UTF-8 encodings. *)
Theorem leaves_permutation_invariant (docs docs' : list str) :
  Permutation docs docs' ->
  build_merkle_leaves docs = build_merkle_leaves docs'
  /\ computed_root_of docs = computed_root_of docs'
  /\ sorted docs = sorted docs'
  /\ Sorted str_le (sorted docs)
  /\ Sorted utf8_le (sorted docs).
Proof.
  intros Hperm. pose proof (sorted_permutation_invariant Hperm) as E.
  unfold computed_root_of, build_merkle_leaves. rewrite E.
  repeat split; rewrite <- E;
    [apply sorted_Sorted|apply sorted_by_utf8_bytes].
Qed.

(** The [for] loop on a pair: when [left] and [right] decode to the
    bytes [l] and [r], the level [left :: right :: rest] reduces to
    [keccak256 (l ++ r)] followed by the reduction of [rest], and the
    root of the two leaves alone is [keccak256 (l ++ r)] after one
    round. *)
Lemma pair_hashes_raw_bytes (left right : str) (rest : list str)
        (l r : bytes) :
  raw_bytes left = Ok l -> raw_bytes right = Ok r ->
  for_loop (left :: right :: rest)
  = (let* next_level := for_loop rest in
     Ok (keccak256 (l ++ r) :: next_level))
  /\ build_merkle_root [left; right] = Ok (keccak256 (l ++ r))
  /\ build_merkle_root_rounds [left; right] = Ok (1, keccak256 (l ++ r)).
Proof.
  intros Hl Hr. unfold build_merkle_root, build_merkle_root_rounds.
  cbn [length while_loop Nat.leb for_loop bind].
  rewrite Hl, Hr. repeat split.
Qed.

(** The pair made of the leaves of two documents: what is hashed is
    what lines 21 and 23 read back from the two texts, the two digests
    when [hex()] writes the prefix. *)
Lemma root_of_two_digests (d1 d2 : bytes) :
  build_merkle_root [keccak256 d1; keccak256 d2]
  = Ok (keccak256 (node_bytes d1 ++ node_bytes d2))
  /\ (hex_has_prefix = true ->
      build_merkle_root [keccak256 d1; keccak256 d2]
      = Ok (keccak256 (Web3_keccak d1 ++ Web3_keccak d2))).
Proof.
  assert (H : build_merkle_root [keccak256 d1; keccak256 d2]
              = Ok (keccak256 (node_bytes d1 ++ node_bytes d2))).
  { unfold build_merkle_root, build_merkle_root_rounds.
    cbn [length while_loop Nat.leb for_loop bind].
    now rewrite !raw_bytes_keccak256. }
  split; [exact H|]. intros P. rewrite H. unfold node_bytes. now rewrite P.
Qed.

(** C8 - single-leaf identity: the root of [[x]] is [x] itself, for any
    text [x], and the loop runs zero rounds. *)
Theorem single_leaf_identity (x : str) :
  build_merkle_root [x] = Ok x
  /\ build_merkle_root_rounds [x] = Ok (0, x).
Proof. split; reflexivity. Qed.

(** C9 - totality and number of rounds: on a non-empty list of leaves
    (hex text after the two-character prefix) [build_merkle_root]
    returns a root, its loop runs exactly [ceil(log2 n)] rounds for [n]
    leaves, and a round turns a level of [m] nodes into one of
    [ceil(m/2)]. *)
Theorem root_total_in_log2_rounds (leaves : list str) :
  leaves <> [] -> forallb hex_leaf leaves = true ->
  (exists root,
      build_merkle_root leaves = Ok root
      /\ build_merkle_root_rounds leaves
         = Ok (Nat.log2_up (length leaves), root))
  /\ (exists next_level,
         for_loop leaves = Ok next_level
         /\ length next_level = (length leaves + 1) / 2).
Proof.
  intros Hne Hhex. split.
  - destruct (build_merkle_root_rounds_ok Hne Hhex) as (root & E).
    exists root. unfold build_merkle_root. now rewrite E.
  - destruct (for_loop_ok _ Hhex) as (nl & E & _).
    exists nl. split; [exact E|]. now apply for_loop_length.
Qed.

(** C10 - one leaf per document: for documents that encode to UTF-8,
    [build_merkle_leaves] returns as many leaves as there are
    documents, the leaves of the documents in sorted order, and a
    document that occurs k times contributes its leaf k times. *)
Theorem one_leaf_per_document (docs : list str) :
  forallb encodable docs = true ->
  exists leaves,
    build_merkle_leaves docs = Ok leaves
    /\ length leaves = length docs
    /\ Forall2 (fun doc leaf =>
                  exists data,
                    encode_utf8 doc = Ok data /\ leaf = keccak256 data)
               (sorted docs) leaves
    /\ forall doc data,
        encode_utf8 doc = Ok data ->
        count_occ str_eq_dec docs doc
        <= count_occ str_eq_dec leaves (keccak256 data).
Proof.
  intros Henc.
  assert (Hs : forallb encodable (sorted docs) = true).
  { apply forallb_forall. intros d Hd.
    apply (proj1 (forallb_forall _ _) Henc).
    eapply Permutation_in; [apply sorted_perm|exact Hd]. }
  destruct (comprehension_encodable _ Hs) as (leaves & E).
  exists leaves. unfold build_merkle_leaves.
  pose proof (comprehension_leaves _ E) as F.
  split; [exact E|split; [|split; [exact F|]]].
  - rewrite <- (sorted_length docs). symmetry.
    clear -F. induction F; simpl; congruence.
  - intros doc data Hdoc.
    rewrite <- (proj1 (Permutation_count_occ str_eq_dec _ _)
                      (sorted_perm docs) doc).
    clear -F Hdoc. induction F as [|d l ds ls (dd & Hd & ->) _ IH].
    + apply le_n.
    + cbn [count_occ]. destruct (str_eq_dec d doc) as [->|Hne].
      * rewrite Hdoc in Hd. injection Hd as <-.
        destruct (str_eq_dec (keccak256 data) (keccak256 data));
          [lia|congruence].
      * destruct (str_eq_dec (keccak256 dd) (keccak256 data)); lia.
Qed.
End Properties.

(** ** White space and markers *)

Lemma lstrip_head (s : str) :
  match lstrip s with
  | [] => True
  | c :: _ => isspace c = false
  end.
Proof.
  induction s as [|c s IH]; cbn [lstrip]; [exact I|].
  destruct (isspace c) eqn:E; [exact IH|exact E].
Qed.

Lemma lstrip_fixed (s : str) :
  match s with
  | [] => True
  | c :: _ => isspace c = false
  end ->
  lstrip s = s.
Proof. destruct s as [|c s]; [reflexivity|]. cbn [lstrip]. now intros ->. Qed.

Lemma lstrip_suffix (s : str) : exists w, s = w ++ lstrip s.
Proof.
  induction s as [|c s (w & IH)]; [now exists []|].
  cbn [lstrip]. destruct (isspace c).
  - exists (c :: w). cbn [app]. now rewrite <- IH.
  - now exists [].
Qed.

Lemma strip_idempotent (s : str) : strip (strip s) = strip s.
Proof.
  unfold strip. set (t := lstrip s). set (u := lstrip (rev t)).
  assert (Hu : lstrip u = u) by (apply lstrip_fixed, lstrip_head).
  assert (Hr : lstrip (rev u) = rev u).
  { apply lstrip_fixed.
    destruct (lstrip_suffix (rev t)) as (w & Hw). fold u in Hw.
    assert (Ht : t = rev u ++ rev w).
    { rewrite <- (rev_involutive t), Hw. apply rev_app_distr. }
    pose proof (lstrip_head s) as Hs. fold t in Hs.
    destruct (rev u) as [|c r]; [exact I|].
    rewrite Ht in Hs. exact Hs. }
  now rewrite Hr, rev_involutive, Hu.
Qed.

Lemma starts_with_app (sep u v : str) :
  length sep <= length u -> starts_with sep (u ++ v) = starts_with sep u.
Proof.
  revert u. induction sep as [|p sep IH]; intros [|c u] Hlen;
    cbn [length] in Hlen; try reflexivity; try lia.
  cbn [app starts_with]. now rewrite IH by lia.
Qed.

Lemma split_without_sep (sep s piece : str) :
  occurs sep s = false -> split_from sep s 0 piece = [rev piece ++ s].
Proof.
  revert piece. induction s as [|c s IH]; intros piece; cbn [occurs].
  - intros _. cbn [split_from]. now rewrite app_nil_r.
  - intros H. apply orb_false_iff in H as [Hs Ho].
    cbn [split_from]. rewrite Hs, (IH (c :: piece) Ho).
    cbn [rev]. now rewrite <- app_assoc.
Qed.

(** Up to the first marker nothing is cut. *)
Lemma split_first_marker (pre rest piece : str) :
  occurs (py "LAW ") (pre ++ py "LAW") = false ->
  split_from (py "LAW ") (pre ++ py "LAW " ++ rest) 0 piece
  = (rev piece ++ pre)
      :: split_from (py "LAW ") (py "AW " ++ rest) 3 [].
Proof.
  revert piece. induction pre as [|c pre IH]; intros piece H.
  - cbn [app]. now rewrite app_nil_r.
  - cbn [occurs app] in H. apply orb_false_iff in H as [Hs Ho].
    change ((c :: pre) ++ py "LAW " ++ rest)
      with (c :: (pre ++ py "LAW " ++ rest)).
    cbn [split_from].
    replace (c :: pre ++ py "LAW " ++ rest)
      with ((c :: pre ++ py "LAW") ++ (py " " ++ rest)).
    2:{ cbn [app]. f_equal. rewrite <- app_assoc. reflexivity. }
    rewrite starts_with_app.
    2:{ cbn [length]. rewrite length_app. cbn. lia. }
    rewrite Hs.
    replace ((c :: pre ++ py "LAW") ++ py " " ++ rest)
      with (c :: (pre ++ py "LAW " ++ rest)).
    2:{ cbn [app]. f_equal. rewrite <- app_assoc. reflexivity. }
    rewrite (IH (c :: piece) Ho). cbn [rev]. now rewrite <- app_assoc.
Qed.

(** X15 - [doc.encode('utf-8')] of line 11 loses nothing: two documents
    that encode to the same bytes are the same text, so different
    documents are hashed from different bytes. *)
Theorem encode_utf8_injective (a b : str) (data : bytes) :
  encode_utf8 a = Ok data -> encode_utf8 b = Ok data -> a = b.
Proof.
  intros Ea Eb. apply str_ltb_trichotomy.
  - rewrite <- (utf8_order _ _ Ea Eb). clear. induction data as [|x d IH];
      [reflexivity|]. cbn [bytes_ltb]. now rewrite N.ltb_irrefl.
  - rewrite <- (utf8_order _ _ Eb Ea). clear. induction data as [|x d IH];
      [reflexivity|]. cbn [bytes_ltb]. now rewrite N.ltb_irrefl.
Qed.

(** * Further properties of the program *)

Lemma fromhex_raises (s : str) (e : exn) :
  fromhex s = Raise e -> e = ValueError_fromhex.
Proof.
  assert (H : forall n s, length s <= n ->
                          fromhex s = Raise e -> e = ValueError_fromhex).
  { clear s. induction n as [|n IH]; intros [|c s] Hlen; simpl in *;
      try discriminate; try lia.
    destruct (isspace_ascii c); [apply IH; lia|].
    destruct (digit_value c); [|congruence].
    destruct s as [|d s]; [congruence|].
    destruct (digit_value d); [|congruence].
    specialize (IH s ltac:(simpl in Hlen; lia)).
    destruct (fromhex s); simpl; try discriminate.
    intros [= <-]. now apply IH. }
  now apply (H (length s)).
Qed.

Lemma encode_utf8_raises (s : str) (e : exn) :
  encode_utf8 s = Raise e -> e = UnicodeEncodeError.
Proof.
  induction s as [|c s IH]; cbn [encode_utf8 bind]; [discriminate|].
  unfold encode_char.
  destruct ((0xD800 <=? c) && (c <=? 0xDFFF) || (0x110000 <=? c))%N;
    cbn [bind]; [congruence|].
  destruct (encode_utf8 s); cbn [bind]; try discriminate.
  intros [= <-]. now apply IH.
Qed.

Lemma encode_utf8_terminates (s : str) : encode_utf8 s <> OutOfFuel.
Proof.
  induction s as [|c s IH]; cbn [encode_utf8 bind]; [discriminate|].
  unfold encode_char.
  destruct ((0xD800 <=? c) && (c <=? 0xDFFF) || (0x110000 <=? c))%N;
    cbn [bind]; [discriminate|].
  destruct (encode_utf8 s); cbn [bind]; congruence.
Qed.

Lemma hexlify_lower (bs : bytes) : forallb lower_hex_char (hexlify bs) = true.
Proof.
  induction bs as [|b bs IH]; [reflexivity|].
  change (hexlify (b :: bs))
    with (hexdigit (Byte.to_N b / 16) :: hexdigit (Byte.to_N b mod 16)
          :: hexlify bs).
  cbn [forallb]. rewrite IH, andb_true_r. now destruct b.
Qed.

Lemma hexlify_len (bs : bytes) : length (hexlify bs) = 2 * length bs.
Proof. induction bs as [|b bs IH]; simpl; lia. Qed.

Section Coverage.
Context {hasher : Hasher} {hexbytes : HexBytes} {stdout : Stdout}.

(** X1 - what lines 21 and 23 read back from a node the program made
    itself: [bytes.fromhex(text[2:])] never raises on the text of
    [keccak256 data]; it gives the digest when [hex()] wrote the 0x
    prefix, and the digest without its first byte when it did not. *)
Theorem raw_bytes_of_node (data : bytes) :
  raw_bytes (keccak256 data)
  = Ok (if hex_has_prefix then Web3_keccak data
        else tl (Web3_keccak data))
  /\ hex_leaf (keccak256 data) = true
  /\ length (skipn 2 (keccak256 data))
     = 2 * length (if hex_has_prefix then Web3_keccak data
                   else tl (Web3_keccak data)).
Proof.
  split; [apply raw_bytes_keccak256|split; [apply hex_leaf_keccak256|]].
  unfold keccak256, hex. destruct hex_has_prefix.
  - change (py "0x") with [48%N; 120%N]. cbn [app skipn]. apply hexlify_len.
  - cbn [app]. rewrite skipn_2_hexlify. apply hexlify_len.
Qed.

Lemma raw_bytes_raises (x : str) (e : exn) :
  raw_bytes x = Raise e -> e = ValueError_fromhex.
Proof. apply fromhex_raises. Qed.

Lemma comprehension_raises (docs : list str) (e : exn) :
  comprehension
    (fun doc => let* data := encode_utf8 doc in Ok (keccak256 data)) docs
  = Raise e ->
  e = UnicodeEncodeError /\ forallb encodable docs = false.
Proof.
  induction docs as [|d docs IH]; cbn [comprehension bind forallb];
    [discriminate|].
  unfold encodable at 1.
  destruct (encode_utf8 d) as [data| |] eqn:Ed; cbn [bind].
  - destruct (comprehension _ docs) as [ls| |]; cbn [bind];
      try discriminate.
    intros [= <-]. now destruct (IH eq_refl).
  - intros [= <-]. split; [now apply encode_utf8_raises in Ed|reflexivity].
  - discriminate.
Qed.

Lemma comprehension_terminates (docs : list str) :
  comprehension
    (fun doc => let* data := encode_utf8 doc in Ok (keccak256 data)) docs
  <> OutOfFuel.
Proof.
  induction docs as [|d docs IH]; cbn [comprehension bind]; [discriminate|].
  pose proof (encode_utf8_terminates d).
  destruct (encode_utf8 d); cbn [bind]; try congruence.
  destruct (comprehension _ docs); cbn [bind]; congruence.
Qed.

Lemma forallb_sorted (p : str -> bool) (docs : list str) :
  forallb p (sorted docs) = forallb p docs.
Proof.
  pose proof (sorted_perm docs) as P.
  destruct (forallb p docs) eqn:E.
  - apply forallb_forall. intros d Hd.
    apply (proj1 (forallb_forall _ _) E).
    eapply Permutation_in; [exact P|exact Hd].
  - destruct (forallb p (sorted docs)) eqn:E'; [|reflexivity].
    rewrite <- E. symmetry. apply forallb_forall. intros d Hd.
    apply (proj1 (forallb_forall _ _) E').
    eapply Permutation_in; [apply Permutation_sym, P|exact Hd].
Qed.

(** X3 - the outcomes of [build_merkle_leaves]: it returns leaves exactly
    when every document encodes to UTF-8 and raises [UnicodeEncodeError]
    exactly when one does not; it raises nothing else, whatever the
    number of documents. *)
Theorem build_merkle_leaves_outcomes (docs : list str) :
  match build_merkle_leaves docs with
  | Ok leaves => forallb encodable docs = true
  | Raise e => e = UnicodeEncodeError /\ forallb encodable docs = false
  | OutOfFuel => False
  end.
Proof.
  unfold build_merkle_leaves.
  pose proof (@comprehension_terminates (sorted docs)) as T.
  destruct (comprehension _ (sorted docs)) as [leaves|e|] eqn:E.
  - rewrite <- forallb_sorted.
    apply comprehension_leaves in E. clear -E.
    induction E as [|d l ds ls (data & Hd & _) _ IH]; [reflexivity|].
    cbn [forallb]. unfold encodable at 1. now rewrite Hd.
  - apply comprehension_raises in E. now rewrite forallb_sorted in E.
  - congruence.
Qed.

(** *** The reduction, level by level *)

Lemma while_loop_fuel (fuel fuel' : nat) (current : list str) :
  length current <= fuel -> length current <= fuel' ->
  while_loop fuel current = while_loop fuel' current.
Proof.
  revert fuel' current.
  induction fuel as [|fuel IH]; intros [|fuel'] current H1 H2; simpl;
    destruct (Nat.leb_spec (length current) 1) as [|Hgt];
    try reflexivity; try lia.
  destruct (for_loop current) as [nl| |] eqn:E; cbn [bind]; try reflexivity.
  apply for_loop_length in E.
  assert (Hnl : length nl < length current).
  { rewrite E. apply Nat.Div0.div_lt_upper_bound. lia. }
  now rewrite (IH fuel' nl) by lia.
Qed.

Lemma build_merkle_root_rounds_step (leaves : list str) :
  2 <= length leaves ->
  build_merkle_root_rounds leaves
  = (let* next_level := for_loop leaves in
     let* '(rounds, root) := build_merkle_root_rounds next_level in
     Ok (S rounds, root)).
Proof.
  intros Hlen. unfold build_merkle_root_rounds at 1.
  destruct leaves as [|x l]; [simpl in Hlen; lia|].
  set (lv := x :: l) in *.
  replace (length lv) with (S (length l)) by reflexivity.
  cbn [while_loop]. destruct (Nat.leb_spec (length lv) 1); [lia|].
  destruct (for_loop lv) as [nl| |] eqn:E; cbn [bind]; try reflexivity.
  pose proof (for_loop_length _ E) as Elen.
  assert (Hnl : 1 <= length nl < length lv).
  { rewrite Elen. split.
    - apply Nat.div_le_lower_bound; lia.
    - apply Nat.Div0.div_lt_upper_bound. lia. }
  assert (Hl : length lv = S (length l)) by reflexivity.
  rewrite (@while_loop_fuel (length l) (length nl) nl) by lia.
  unfold build_merkle_root_rounds.
  destruct nl as [|n0 nl']; [simpl in Hnl; lia|].
  destruct (while_loop _ _) as [[r [|c f]]| |]; reflexivity.
Qed.

Lemma build_merkle_root_step (leaves : list str) :
  2 <= length leaves ->
  build_merkle_root leaves
  = (let* next_level := for_loop leaves in build_merkle_root next_level).
Proof.
  intros Hlen. unfold build_merkle_root.
  rewrite (build_merkle_root_rounds_step _ Hlen).
  destruct (for_loop leaves) as [nl| |]; cbn [bind]; try reflexivity.
  destruct (build_merkle_root_rounds nl) as [[r root]| |]; reflexivity.
Qed.

Lemma for_loop_fails (current : list str) :
  forallb hex_leaf current = false ->
  for_loop current = Raise ValueError_fromhex.
Proof.
  assert (bad : forall x, hex_leaf x = false ->
                          raw_bytes x = Raise ValueError_fromhex).
  { intros x. unfold hex_leaf.
    pose proof (raw_bytes_terminates x) as T.
    destruct (raw_bytes x) as [b|e|] eqn:E; try congruence.
    intros _. now rewrite (raw_bytes_raises _ E). }
  induction current as [|x|x y l IH] using list_pair_ind;
    cbn [for_loop bind forallb].
  - discriminate.
  - rewrite andb_true_r. intros Hx. now rewrite (bad x Hx).
  - destruct (hex_leaf x) eqn:Hx; [|intros _; now rewrite (bad x Hx)].
    unfold hex_leaf in Hx. destruct (raw_bytes x) as [bx| |];
      try discriminate.
    cbn [bind andb].
    destruct (hex_leaf y) eqn:Hy; [|intros _; now rewrite (bad y Hy)].
    unfold hex_leaf in Hy. destruct (raw_bytes y) as [by'| |];
      try discriminate.
    cbn [bind andb]. intros Hl. now rewrite (IH Hl).
Qed.

Lemma root_of_digests (leaves : list str) (root : str) :
  Forall (fun x => exists data, x = keccak256 data) leaves ->
  build_merkle_root leaves = Ok root -> exists data, root = keccak256 data.
Proof.
  intros Hl. unfold build_merkle_root, build_merkle_root_rounds.
  destruct leaves as [|x l]; [discriminate|].
  destruct (while_loop _ _) as [[n [|r f]]| |] eqn:W; cbn [bind];
    try discriminate.
  intros [= <-]. apply (while_loop_digests _ Hl) in W.
  now inversion W.
Qed.

(** X4 - the outcomes of [build_merkle_root]. It returns the single leaf
    of a one-element list as it is; for two or more leaves it returns the
    text of a digest exactly when every leaf is hex after its first two
    characters, and raises the [ValueError] of [bytes.fromhex] exactly
    when one is not; [ValueError("No leaves")] is raised for the empty
    list only. Nothing else happens: no [IndexError] at line 29, and the
    loop always ends. *)
Theorem build_merkle_root_outcomes (leaves : list str) :
  match build_merkle_root leaves with
  | Ok root =>
      leaves = [root]
      \/ (2 <= length leaves /\ forallb hex_leaf leaves = true
          /\ exists data, root = keccak256 data)
  | Raise e =>
      (leaves = [] /\ e = ValueError_no_leaves)
      \/ (2 <= length leaves /\ forallb hex_leaf leaves = false
          /\ e = ValueError_fromhex)
  | OutOfFuel => False
  end.
Proof.
  destruct leaves as [|x [|y l]].
  - left. now split.
  - left. reflexivity.
  - set (lv := x :: y :: l).
    assert (Hlen : 2 <= length lv) by (simpl; lia).
    rewrite (build_merkle_root_step _ Hlen).
    destruct (forallb hex_leaf lv) eqn:Hhex.
    + destruct (for_loop_ok _ Hhex) as (nl & E & Hnl).
      rewrite E. cbn [bind].
      pose proof (for_loop_length _ E) as Elen.
      assert (Hne : nl <> []).
      { intros ->. cbn [length] in Elen.
        assert (1 <= (length lv + 1) / 2)
          by (apply Nat.div_le_lower_bound; lia). lia. }
      destruct (build_merkle_root_rounds_ok Hne Hnl) as (root & R).
      assert (Eroot : build_merkle_root nl = Ok root)
        by (unfold build_merkle_root; now rewrite R).
      rewrite Eroot. right. repeat split; [exact Hlen|].
      eapply root_of_digests; [|exact Eroot].
      eapply for_loop_digests, E.
    + rewrite (for_loop_fails _ Hhex). cbn [bind]. right. now repeat split.
Qed.

Lemma for_loop_raw (l l' : list str) :
  Forall2 (fun a b => raw_bytes a = raw_bytes b) l l' ->
  for_loop l = for_loop l'.
Proof.
  revert l'. induction l as [|x|x y l IH] using list_pair_ind; intros l' F.
  - now inversion F.
  - inversion F as [|? x' ? t' Hx Ht]; subst. inversion Ht; subst.
    cbn [for_loop]. now rewrite Hx.
  - inversion F as [|? x' ? t' Hx Ht]; subst.
    inversion Ht as [|? y' ? t'' Hy Ht']; subst.
    cbn [for_loop]. now rewrite Hx, Hy, (IH _ Ht').
Qed.

(** X5 - with two or more leaves the root depends on the leaves only
    through the bytes [bytes.fromhex(leaf[2:])] of lines 21 and 23: two
    lists whose leaves decode alike, whatever their first two characters,
    the case of their hex letters or the white space between bytes, have
    the same root or raise the same exception. *)
Theorem root_depends_on_raw_bytes_only (leaves leaves' : list str) :
  2 <= length leaves ->
  Forall2 (fun a b => raw_bytes a = raw_bytes b) leaves leaves' ->
  build_merkle_root leaves = build_merkle_root leaves'.
Proof.
  intros Hlen F.
  assert (Hlen' : 2 <= length leaves')
    by (now rewrite <- (Forall2_length F)).
  rewrite (build_merkle_root_step _ Hlen), (build_merkle_root_step _ Hlen').
  now rewrite (for_loop_raw F).
Qed.

(** X6 - a level and the level above it have the same root: when the
    [for] loop turns two or more leaves into [next_level], the root of
    the leaves is the root of [next_level] taken as leaves, reached in
    one round more. Inner nodes are not told apart from leaves. *)
Theorem root_of_level_is_root_of_next (leaves next_level : list str) :
  2 <= length leaves -> for_loop leaves = Ok next_level ->
  build_merkle_root leaves = build_merkle_root next_level
  /\ build_merkle_root_rounds leaves
     = (let* '(rounds, root) := build_merkle_root_rounds next_level in
        Ok (S rounds, root)).
Proof.
  intros Hlen E.
  rewrite (build_merkle_root_step _ Hlen).
  rewrite (build_merkle_root_rounds_step _ Hlen).
  now rewrite E.
Qed.

Lemma for_loop_app (l1 l2 : list str) :
  Nat.Even (length l1) ->
  for_loop (l1 ++ l2)
  = (let* n1 := for_loop l1 in
     let* n2 := for_loop l2 in
     Ok (n1 ++ n2)).
Proof.
  induction l1 as [|x|x y l IH] using list_pair_ind; intros Hev.
  - cbn [app for_loop bind]. now destruct (for_loop l2).
  - destruct Hev as [k Hk]. simpl in Hk. lia.
  - assert (Hl : Nat.Even (length l)).
    { destruct Hev as [k Hk]. exists (k - 1). simpl in Hk. lia. }
    change ((x :: y :: l) ++ l2) with (x :: y :: (l ++ l2)).
    cbn [for_loop]. rewrite (IH Hl).
    destruct (raw_bytes x); cbn [bind]; try reflexivity.
    destruct (raw_bytes y); cbn [bind]; try reflexivity.
    destruct (for_loop l); cbn [bind]; try reflexivity.
    destruct (for_loop l2); reflexivity.
Qed.

Lemma half_pow2 (k : nat) : (2 ^ S k + 1) / 2 = 2 ^ k.
Proof.
  rewrite Nat.pow_succ_r'.
  replace (2 * 2 ^ k + 1) with (1 + 2 ^ k * 2) by lia.
  rewrite Nat.div_add by lia. reflexivity.
Qed.

Lemma balanced_root (k : nat) :
  forall l1 l2 : list str,
    length l1 = 2 ^ k -> length l2 = 2 ^ k ->
    forallb hex_leaf l1 = true -> forallb hex_leaf l2 = true ->
    exists r1 r2 b1 b2,
      build_merkle_root l1 = Ok r1 /\ build_merkle_root l2 = Ok r2
      /\ raw_bytes r1 = Ok b1 /\ raw_bytes r2 = Ok b2
      /\ build_merkle_root (l1 ++ l2) = Ok (keccak256 (b1 ++ b2)).
Proof.
  induction k as [|k IH]; intros l1 l2 H1 H2 X1 X2.
  - destruct l1 as [|a [|? ?]]; try discriminate.
    destruct l2 as [|b [|? ?]]; try discriminate.
    cbn [forallb] in X1, X2. rewrite andb_true_r in X1, X2.
    unfold hex_leaf in X1, X2.
    destruct (raw_bytes a) as [ba| |] eqn:Ea; try discriminate.
    destruct (raw_bytes b) as [bb| |] eqn:Eb; try discriminate.
    exists a, b, ba, bb. repeat split; try assumption.
    unfold build_merkle_root, build_merkle_root_rounds.
    cbn [app length while_loop Nat.leb for_loop bind].
    now rewrite Ea, Eb.
  - assert (Hp : 1 <= 2 ^ k) by (apply Nat.neq_0_lt_0, Nat.pow_nonzero; lia).
    assert (Hev : Nat.Even (length l1))
      by (exists (2 ^ k); rewrite H1; apply Nat.pow_succ_r').
    assert (L1 : 2 <= length l1) by (rewrite H1, Nat.pow_succ_r'; lia).
    assert (L2 : 2 <= length l2) by (rewrite H2, Nat.pow_succ_r'; lia).
    assert (L12 : 2 <= length (l1 ++ l2)) by (rewrite length_app; lia).
    destruct (for_loop_ok _ X1) as (n1 & E1 & Y1).
    destruct (for_loop_ok _ X2) as (n2 & E2 & Y2).
    pose proof (for_loop_length _ E1) as N1.
    pose proof (for_loop_length _ E2) as N2.
    rewrite H1, half_pow2 in N1. rewrite H2, half_pow2 in N2.
    destruct (IH n1 n2 N1 N2 Y1 Y2) as (r1 & r2 & b1 & b2 & R1 & R2 & B1 & B2 & R).
    exists r1, r2, b1, b2.
    rewrite (build_merkle_root_step _ L1), (build_merkle_root_step _ L2).
    rewrite (build_merkle_root_step _ L12), (@for_loop_app l1 l2 Hev).
    rewrite E1, E2. cbn [bind]. now repeat split.
Qed.

(** X7 - two halves of one size: when [l1] and [l2] both have [2^k] hex
    leaves, the root of [l1 ++ l2] is the hash of the bytes of the root
    of [l1] followed by the bytes of the root of [l2]. *)
Theorem root_of_two_halves (k : nat) (l1 l2 : list str) :
  length l1 = 2 ^ k -> length l2 = 2 ^ k ->
  forallb hex_leaf l1 = true -> forallb hex_leaf l2 = true ->
  exists r1 r2 b1 b2,
    build_merkle_root l1 = Ok r1 /\ build_merkle_root l2 = Ok r2
    /\ raw_bytes r1 = Ok b1 /\ raw_bytes r2 = Ok b2
    /\ build_merkle_root (l1 ++ l2) = Ok (keccak256 (b1 ++ b2)).
Proof. intros H1 H2 X1 X2. now apply (@balanced_root k). Qed.

(** *** The codex and the verdict *)

Lemma computed_root_outcomes (laws : list str) :
  match computed_root_of laws with
  | Ok root => laws <> [] /\ forallb encodable laws = true
  | Raise e =>
      (e = ValueError_no_leaves /\ laws = [])
      \/ (e = UnicodeEncodeError /\ forallb encodable laws = false)
  | OutOfFuel => False
  end.
Proof.
  unfold computed_root_of, build_merkle_leaves.
  pose proof (@comprehension_terminates (sorted laws)) as T.
  destruct (comprehension _ (sorted laws)) as [leaves|e|] eqn:E;
    cbn [bind]; [| |congruence].
  - pose proof (comprehension_leaves _ E) as F.
    assert (Henc : forallb encodable laws = true).
    { rewrite <- forallb_sorted. clear -F.
      induction F as [|d l ds ls (data & Hd & _) _ IH]; [reflexivity|].
      cbn [forallb]. unfold encodable at 1. now rewrite Hd. }
    assert (Hhex : forallb hex_leaf leaves = true).
    { clear -F. induction F as [|d l ds ls (data & _ & ->) _ IH];
        [reflexivity|].
      cbn [forallb]. now rewrite hex_leaf_keccak256. }
    pose proof (Forall2_length F) as Hlen. rewrite sorted_length in Hlen.
    destruct leaves as [|x l].
    + destruct laws; [|discriminate]. left. now split.
    + assert (Hne : x :: l <> []) by discriminate.
      destruct (build_merkle_root_rounds_ok Hne Hhex) as (root & R).
      unfold build_merkle_root. rewrite R. cbn [bind].
      split; [|exact Henc]. intros ->. discriminate.
  - right. apply comprehension_raises in E.
    now rewrite forallb_sorted in E.
Qed.

(** C7 (as amended) - the ledger transactions do not decide the
    boolean: two lists of transaction hashes never give
    [verify_against_txs] two different booleans; the outcome with a
    list is the outcome without any transaction, or the
    [UnicodeEncodeError] of line 49 printing a transaction that
    [sys.stdout] refuses; it is the outcome without any transaction
    when [sys.stdout] accepts the line of every transaction; and a run
    that returns False has not looked at the transactions at all. *)
Theorem verdict_independent_of_txs (fs : str -> exn + str)
        (codex_path expected_root : str) (tx_hashes : list str) :
  (forall tx_hashes' b b',
      snd (verify_against_txs fs codex_path expected_root tx_hashes) = Ok b ->
      snd (verify_against_txs fs codex_path expected_root tx_hashes') = Ok b' ->
      b = b')
  /\ (snd (verify_against_txs fs codex_path expected_root tx_hashes)
      = snd (verify_against_txs fs codex_path expected_root [])
      \/ snd (verify_against_txs fs codex_path expected_root tx_hashes)
         = Raise UnicodeEncodeError)
  /\ (forallb printable (map (tx_line expected_root) tx_hashes) = true ->
      snd (verify_against_txs fs codex_path expected_root tx_hashes)
      = snd (verify_against_txs fs codex_path expected_root []))
  /\ (snd (verify_against_txs fs codex_path expected_root tx_hashes)
      = Ok false ->
      forall tx_hashes',
        verify_against_txs fs codex_path expected_root tx_hashes'
        = verify_against_txs fs codex_path expected_root tx_hashes).
Proof.
  destruct (fs codex_path) as [e|content] eqn:Hfs.
  { assert (R : forall l, verify_against_txs fs codex_path expected_root l
                          = ([], Raise e))
      by (intros l;
          exact (@verify_read_fails _ _ _ fs codex_path expected_root l e Hfs)).
    split; [|split; [|split]].
    - intros l b b'. rewrite R. discriminate.
    - left. now rewrite !R.
    - intros _. now rewrite !R.
    - rewrite R. discriminate. }
  pose proof (computed_root_outcomes (laws_of content)) as Out.
  destruct (computed_root_of (laws_of content)) as [root|e|] eqn:Hroot;
    [clear Out| |contradiction].
  2:{ assert (R : forall l, verify_against_txs fs codex_path expected_root l
                            = ([], Raise e))
        by (intros l;
            exact (@verify_root_fails _ _ _ fs codex_path expected_root content l e
                     Hfs Hroot)).
      split; [|split; [|split]].
      - intros l b b'. rewrite R. discriminate.
      - left. now rewrite !R.
      - intros _. now rewrite !R.
      - rewrite R. discriminate. }
  assert (R : forall l, verify_against_txs fs codex_path expected_root l
                        = (printed (run_log root expected_root l),
                           if forallb printable (run_log root expected_root l)
                           then Ok (str_eqb root expected_root)
                           else Raise UnicodeEncodeError))
    by (intros l;
        exact (@verify_run _ _ _ fs codex_path expected_root content root l
                 Hfs Hroot)).
  assert (ret : forall l b,
             snd (verify_against_txs fs codex_path expected_root l) = Ok b ->
             b = str_eqb root expected_root).
  { intros l b. rewrite R. cbn [snd].
    destruct (forallb printable (run_log root expected_root l));
      [now intros [= <-]|discriminate]. }
  split; [|split; [|split]].
  - intros l b b' H H'. now rewrite (ret _ _ H), (ret _ _ H').
  - rewrite !R. cbn [snd]. unfold run_log.
    destruct (str_eqb root expected_root); [|now left].
    cbn [forallb map app]. rewrite forallb_app. cbn [forallb].
    destruct (forallb printable (map (tx_line expected_root) tx_hashes));
      cbn [andb]; [now left|].
    rewrite andb_false_r. now right.
  - intros P. rewrite !R. cbn [snd]. unfold run_log.
    destruct (str_eqb root expected_root); [|reflexivity].
    cbn [forallb map app]. rewrite forallb_app, P. reflexivity.
  - intros H l. pose proof (ret _ _ H) as E. rewrite !R.
    unfold run_log. now rewrite <- E.
Qed.

(** X8 - how [verify_against_txs] fails. Before line 39 it raises what
    [open] or [f.read()] raised, [ValueError("No leaves")] when the
    codex holds no law and [UnicodeEncodeError] when a law does not
    encode, and then nothing has been printed. From line 39 on only
    [print] can raise, [UnicodeEncodeError] on a line that [sys.stdout]
    refuses, with the lines before it printed. A run that returns has
    printed every line of the run and returns the comparison of the
    roots. *)
Theorem verify_failures (fs : str -> exn + str)
        (codex_path expected_root : str) (tx_hashes : list str) :
  match verify_against_txs fs codex_path expected_root tx_hashes with
  | (out, Ok b) =>
      exists root content,
        fs codex_path = inr content
        /\ computed_root_of (laws_of content) = Ok root
        /\ b = str_eqb root expected_root
        /\ out = run_log root expected_root tx_hashes
  | (out, Raise e) =>
      match fs codex_path with
      | inl e' => e = e' /\ out = []
      | inr content =>
          match computed_root_of (laws_of content) with
          | Ok root =>
              e = UnicodeEncodeError
              /\ out = printed (run_log root expected_root tx_hashes)
              /\ forallb printable (run_log root expected_root tx_hashes)
                 = false
          | Raise e' =>
              e = e' /\ out = []
              /\ ((e = ValueError_no_leaves /\ laws_of content = [])
                  \/ (e = UnicodeEncodeError
                      /\ forallb encodable (laws_of content) = false))
          | OutOfFuel => False
          end
      end
  | (out, OutOfFuel) => False
  end.
Proof.
  destruct (fs codex_path) as [e|content] eqn:Hfs.
  { rewrite (@verify_read_fails _ _ _ fs codex_path expected_root tx_hashes
               e Hfs).
    now split. }
  pose proof (computed_root_outcomes (laws_of content)) as Out.
  destruct (computed_root_of (laws_of content)) as [root|e|] eqn:Hroot;
    [clear Out| |contradiction].
  - rewrite (@verify_run _ _ _ fs codex_path expected_root content root
               tx_hashes Hfs Hroot).
    destruct (forallb printable (run_log root expected_root tx_hashes))
      eqn:P.
    + exists root, content. repeat split; [exact Hroot|].
      now apply printed_all.
    + now repeat split.
  - rewrite (@verify_root_fails _ _ _ fs codex_path expected_root content
               tx_hashes e Hfs Hroot).
    now repeat split.
Qed.

(** X9 - a codex without the marker: when the text LAW followed by a
    space occurs nowhere in the file, [verify_against_txs] raises
    [ValueError("No leaves")] and prints nothing, whatever the expected
    root. *)
Theorem verify_without_marker (fs : str -> exn + str)
        (codex_path expected_root content : str) (tx_hashes : list str) :
  fs codex_path = inr content ->
  occurs (py "LAW ") content = false ->
  laws_of content = []
  /\ verify_against_txs fs codex_path expected_root tx_hashes
     = ([], Raise ValueError_no_leaves).
Proof.
  intros Hfs Hno.
  assert (Hl : laws_of content = []).
  { unfold laws_of, split. now rewrite (@split_without_sep (py "LAW ") content [] Hno). }
  split; [exact Hl|].
  unfold verify_against_txs. rewrite Hfs. cbn [lift io_bind].
  now rewrite Hl.
Qed.

(** X10 - the laws of a codex: every law that line 36 keeps is non-empty
    and has no white space left at either end (stripping it again
    changes nothing). *)
Theorem laws_are_stripped (content : str) :
  Forall (fun law => law <> [] /\ strip law = law) (laws_of content).
Proof.
  unfold laws_of. apply Forall_forall. intros law Hin.
  apply in_map_iff in Hin as (raw & <- & Hraw).
  apply filter_In in Hraw as [_ Hne].
  split; [|apply strip_idempotent].
  apply negb_true_iff, str_eqb_neq in Hne. exact Hne.
Qed.

(** X11 - what precedes the first marker is not committed to: the laws,
    and so the root, of a codex do not change when the text before the
    first LAW marker is replaced by any other text that brings no
    earlier marker. *)
Theorem preamble_is_ignored (pre pre' rest : str) :
  occurs (py "LAW ") (pre ++ py "LAW") = false ->
  occurs (py "LAW ") (pre' ++ py "LAW") = false ->
  laws_of (pre ++ py "LAW " ++ rest) = laws_of (pre' ++ py "LAW " ++ rest)
  /\ computed_root_of (laws_of (pre ++ py "LAW " ++ rest))
     = computed_root_of (laws_of (pre' ++ py "LAW " ++ rest)).
Proof.
  intros H H'.
  assert (E : laws_of (pre ++ py "LAW " ++ rest)
              = laws_of (pre' ++ py "LAW " ++ rest)).
  { unfold laws_of, split.
    rewrite (@split_first_marker pre rest [] H).
    now rewrite (@split_first_marker pre' rest [] H'). }
  now rewrite E.
Qed.

(** X12 - the run depends on the laws as a multiset: two codex files
    whose laws are the same up to order give [verify_against_txs] the
    same outcome and the same printed lines, for the same expected root
    and the same transactions. *)
Theorem verdict_depends_on_laws_multiset (fs fs' : str -> exn + str)
        (codex_path codex_path' expected_root content content' : str)
        (tx_hashes : list str) :
  fs codex_path = inr content -> fs' codex_path' = inr content' ->
  Permutation (laws_of content) (laws_of content') ->
  verify_against_txs fs codex_path expected_root tx_hashes
  = verify_against_txs fs' codex_path' expected_root tx_hashes.
Proof.
  intros Hfs Hfs' P.
  assert (E : computed_root_of (laws_of content)
              = computed_root_of (laws_of content')).
  { unfold computed_root_of, build_merkle_leaves.
    now rewrite (sorted_permutation_invariant P). }
  unfold verify_against_txs. rewrite Hfs, Hfs'. cbn [lift io_bind].
  now rewrite E.
Qed.

(** X13 - what a run prints once the root is computed: the lines of
    the run, in order, up to the first one that [sys.stdout] refuses.
    The lines of the run are the computed root, then on a mismatch the
    mismatch line and no transaction, and on a match one line for each
    transaction, in order, naming that transaction and the expected
    root, then the attestation with the epoch of line 52. When
    [sys.stdout] accepts them all, the run prints them all, 2 lines or
    2 and the number of transactions, and returns the comparison. *)
Theorem verify_log (fs : str -> exn + str)
        (codex_path expected_root content root : str)
        (tx_hashes : list str) :
  fs codex_path = inr content ->
  computed_root_of (laws_of content) = Ok root ->
  fst (verify_against_txs fs codex_path expected_root tx_hashes)
  = printed (run_log root expected_root tx_hashes)
  /\ (exists rest,
        run_log root expected_root tx_hashes
        = fst (verify_against_txs fs codex_path expected_root tx_hashes)
            ++ rest)
  /\ (forallb printable (run_log root expected_root tx_hashes) = true ->
      verify_against_txs fs codex_path expected_root tx_hashes
      = (if str_eqb root expected_root
         then computed_line root
                :: map (tx_line expected_root) tx_hashes
                ++ [attestation_line EPOCH expected_root]
         else [computed_line root; mismatch_line],
         Ok (str_eqb root expected_root))
      /\ length (fst (verify_against_txs fs codex_path expected_root
                        tx_hashes))
         = if str_eqb root expected_root then 2 + length tx_hashes else 2).
Proof.
  intros Hfs Hroot.
  rewrite (@verify_run _ _ _ fs codex_path expected_root content root
             tx_hashes Hfs Hroot).
  cbn [fst]. split; [reflexivity|split].
  - apply printed_prefix.
  - intros P. rewrite P, (printed_all _ P). unfold run_log.
    destruct (str_eqb root expected_root); split; try reflexivity.
    cbn [length]. rewrite length_app, length_map. cbn [length]. lia.
Qed.

Lemma computed_root_is_keccak256 (laws : list str) (root : str) :
  computed_root_of laws = Ok root -> exists data, root = keccak256 data.
Proof.
  unfold computed_root_of, build_merkle_leaves.
  destruct (comprehension _ (sorted laws)) as [leaves| |] eqn:E;
    cbn [bind]; try discriminate.
  apply comprehension_leaves in E.
  apply root_of_digests.
  clear -E. induction E as [|d l ds ls (data & _ & ->) _ IH];
    constructor; [now eexists|exact IH].
Qed.
End Coverage.

(** ** The program linked with Keccak-256 *)

#[local] Existing Instance keccak_hasher.

(** Split a conjunction of closed facts and evaluate each of them. *)
Ltac evaluate :=
  repeat match goal with |- _ /\ _ => split end;
  vm_compute; try reflexivity; try discriminate.

(** *** The size of a digest, and the script *)

Lemma keccak_round_length (a : list N) (rc : N) :
  length (Keccak.round a rc) = 25.
Proof.
  unfold Keccak.round, Keccak.chi.
  set (b := map _ Keccak.coords).
  assert (Hb : length b = 25) by (unfold b; now rewrite length_map).
  clearbody b. destruct b as [|b0 b]; [discriminate|exact Hb].
Qed.

Lemma keccak_f_length (a : list N) :
  length a = 25 -> length (Keccak.keccak_f a) = 25.
Proof.
  unfold Keccak.keccak_f. generalize Keccak.RC. intros rcs. revert a.
  induction rcs as [|rc rcs IH]; intros a Ha; [exact Ha|].
  cbn [fold_left]. apply IH, keccak_round_length.
Qed.

Lemma keccak_absorb_length (n : nat) (st : list N) (bs : bytes) :
  length st = 25 -> length (Keccak.absorb n st bs) = 25.
Proof.
  revert st bs. induction n as [|n IH]; intros st bs Hst; [exact Hst|].
  cbn [Keccak.absorb]. apply IH, keccak_f_length.
  clear -Hst. generalize (Keccak.lanes_of (Keccak.rate / 8)
                            (firstn Keccak.rate bs)). intros blk.
  revert blk Hst. generalize 25. induction st as [|s st IH];
    intros n blk Hst; [exact Hst|].
  destruct blk as [|b blk]; [exact Hst|].
  cbn [Keccak.xor_into length] in *. destruct n; [discriminate|].
  f_equal. apply IH. now injection Hst.
Qed.

Lemma N_to_le_length (k : nat) (n : N) : length (Keccak.N_to_le k n) = k.
Proof.
  revert n. induction k as [|k IH]; intros n; [reflexivity|].
  cbn [Keccak.N_to_le length]. now rewrite IH.
Qed.

Lemma keccak_256_length (msg : bytes) : length (Keccak.keccak_256 msg) = 32.
Proof.
  unfold Keccak.keccak_256, Keccak.sponge.
  set (st := Keccak.absorb _ _ _).
  assert (Hst : length st = 25).
  { unfold st. apply keccak_absorb_length. apply repeat_length. }
  clearbody st.
  do 4 (destruct st as [|? st]; [discriminate|]).
  cbn [firstn flat_map]. rewrite !length_app, !N_to_le_length. reflexivity.
Qed.

Section Script.
Context {hexbytes : HexBytes} {stdout : Stdout}.

(** X14 - the script of lines 59-67 cannot succeed: its expected root
    has 34 characters and a computed root has 66, or 64 when [hex()]
    writes no prefix, so for every content of the codex file the
    verification does not return True; a run that ends has printed the
    computed root, the mismatch and Lockout Verified: False. *)
Theorem main_never_verifies (fs : str -> exn + str) :
  snd (verify_against_txs fs codex_file expected txs) <> Ok true
  /\ forall out,
      main fs = (out, Ok tt) ->
      exists root,
        out = [computed_line root; mismatch_line; verdict_line false].
Proof.
  assert (Hne : forall content root,
             computed_root_of (laws_of content) = Ok root ->
             str_eqb root expected = false).
  { intros content root R. apply str_eqb_neq. intros ->.
    destruct (computed_root_is_keccak256 _ R) as (data & E).
    apply (f_equal (@length N)) in E.
    unfold keccak256, hex in E.
    rewrite length_app, hexlify_len, keccak_256_length in E.
    destruct hex_has_prefix; discriminate E. }
  destruct (fs codex_file) as [e|content] eqn:Hfs.
  { unfold main.
    rewrite (@verify_read_fails _ _ _ fs codex_file expected txs e Hfs).
    split; [discriminate|]. intros out. discriminate. }
  pose proof (computed_root_outcomes (laws_of content)) as Out.
  destruct (computed_root_of (laws_of content)) as [root|e|] eqn:R;
    [clear Out| |contradiction].
  2:{ unfold main.
      rewrite (@verify_root_fails _ _ _ fs codex_file expected content txs e
                 Hfs R).
      split; [discriminate|]. intros out. discriminate. }
  unfold main.
  rewrite (@verify_run _ _ _ fs codex_file expected content root txs Hfs R).
  unfold run_log. rewrite (Hne content root R). cbn [forallb printed].
  split.
  - cbn [snd].
    destruct (printable (computed_line root) && (printable mismatch_line && true));
      discriminate.
  - intros out.
    destruct (printable (computed_line root)); cbn [andb io_bind];
      [|discriminate].
    destruct (printable mismatch_line); cbn [andb io_bind];
      [|discriminate].
    unfold print. destruct (printable (verdict_line false)); [|discriminate].
    intros [= <-]. now exists root.
Qed.
End Script.

(** *** As installed with hexbytes before 1.0, on a UTF-8 terminal *)

Section Hexbytes0.
#[local] Existing Instance hexbytes_0.
#[local] Existing Instance utf8_stdout.

Example keccak_256_empty :
  keccak256 []
  = py "0xc5d2460186f7233c927e7db2dcc703c0e500b653ca82273b7bfad8045d85a470".
Proof. vm_compute. reflexivity. Qed.

Example keccak_256_abc :
  keccak256 ["a"%byte; "b"%byte; "c"%byte]
  = py "0x4e03657aea45a94fc7d47ba826c8d667c0d1e6e33a64a036ec44f58fa12d6c45".
Proof. vm_compute. reflexivity. Qed.

Example leaves_ABC :
  build_merkle_leaves [C_doc; A_doc; B_doc] = Ok [leaf_A; leaf_B; leaf_C].
Proof. vm_compute. reflexivity. Qed.

Example raw_bytes_leaf_A : raw_bytes leaf_A = Ok digest_A.
Proof. vm_compute. reflexivity. Qed.

Example raw_bytes_leaf_B : raw_bytes leaf_B = Ok digest_B.
Proof. vm_compute. reflexivity. Qed.

Example raw_bytes_leaf_C : raw_bytes leaf_C = Ok digest_C.
Proof. vm_compute. reflexivity. Qed.

Example root_codex_computed :
  computed_root_of (laws_of codex_txt) = Ok root_codex.
Proof. vm_compute. reflexivity. Qed.

(** The scenario of the two laws: the root is the hash of the two leaf
    digests side by side; that root verifies and another one does not. *)
Example two_laws_end_to_end :
  laws_of codex_txt = [py "1: x"; py "2: y"]
  /\ build_merkle_leaves (laws_of codex_txt)
     = Ok [keccak256 law_1_bytes; keccak256 law_2_bytes]
  /\ root_codex
     = keccak256 (Web3_keccak law_1_bytes ++ Web3_keccak law_2_bytes)
  /\ verify_against_txs one_file (py "codex.txt") root_codex []
     = ([py "Computed Merkle Root: " ++ root_codex;
         attestation_line EPOCH root_codex], Ok true)
  /\ snd (verify_against_txs one_file (py "codex.txt") root_ABC []) = Ok false.
Proof. evaluate. Qed.

(** A repeated document changes the root. *)
Example repeated_document_changes_root :
  computed_root_of [A_doc] = Ok leaf_A
  /\ computed_root_of [A_doc; A_doc] <> Ok leaf_A.
Proof. evaluate. Qed.

(** C1 - the code at three leaves: the unpaired third leaf goes up as the
    hash of its bytes alone, [keccak256 c], not of [c ++ c]; the root the
    program returns for the leaves of A, B and C is not the root that
    self-pairing gives. *)
Theorem odd_level_hashes_last_alone :
  build_merkle_root [leaf_A; leaf_B; leaf_C] = Ok root_ABC
  /\ root_ABC
     = keccak256 (Web3_keccak (digest_A ++ digest_B) ++ Web3_keccak digest_C)
  /\ self_paired_root digest_A digest_B digest_C = root_ABC_self_paired
  /\ build_merkle_root [leaf_A; leaf_B; leaf_C]
     <> Ok (self_paired_root digest_A digest_B digest_C).
Proof. evaluate. Qed.

(** C2, the claim as stated fails: on the empty list
    [build_merkle_leaves] returns normally. *)
Lemma build_merkle_leaves_empty_returns :
  build_merkle_leaves [] = Ok []
  /\ ~ (exists e, build_merkle_leaves [] = Raise e).
Proof. split; [reflexivity|]. intros [e H]. discriminate H. Qed.

(** C3, the claim as stated fails, with either hexbytes: the text of the
    computed root is accepted and the same digest in upper case is
    refused; where [hex()] writes the prefix the root without it is
    refused, and where it writes none the root behind a prefix is. *)
Lemma verify_is_case_and_prefix_sensitive :
  (computed_root_of (laws_of codex_txt) = Ok root_codex
   /\ upper_hex root_codex = root_codex_upper
   /\ skipn 2 root_codex = root_codex_bare
   /\ raw_bytes root_codex_upper = raw_bytes root_codex
   /\ snd (verify_against_txs one_file (py "codex.txt") root_codex [])
      = Ok true
   /\ snd (verify_against_txs one_file (py "codex.txt") root_codex_upper [])
      = Ok false
   /\ snd (verify_against_txs one_file (py "codex.txt") root_codex_bare [])
      = Ok false)
  /\ (@computed_root_of keccak_hasher hexbytes_1 (laws_of codex_txt)
      = Ok root_codex_1
      /\ root_codex_1_prefixed = py "0x" ++ root_codex_1
      /\ fromhex root_codex_1_upper = fromhex root_codex_1
      /\ snd (@verify_against_txs keccak_hasher hexbytes_1 utf8_stdout
                one_file (py "codex.txt") root_codex_1 [])
         = Ok true
      /\ snd (@verify_against_txs keccak_hasher hexbytes_1 utf8_stdout
                one_file (py "codex.txt") root_codex_1_upper [])
         = Ok false
      /\ snd (@verify_against_txs keccak_hasher hexbytes_1 utf8_stdout
                one_file (py "codex.txt") root_codex_1_prefixed [])
         = Ok false).
Proof. evaluate. Qed.

Lemma verify_compares_text_exactly_witness :
  one_file (py "codex.txt") = inr codex_txt
  /\ computed_root_of (laws_of codex_txt) = Ok root_codex
  /\ forallb printable (run_log root_codex root_codex_upper txs) = true
  /\ snd (verify_against_txs one_file (py "codex.txt") root_codex_upper txs)
     = Ok (str_eqb root_codex root_codex_upper).
Proof.
  assert (H1 : one_file (py "codex.txt") = inr codex_txt) by reflexivity.
  assert (H2 : computed_root_of (laws_of codex_txt) = Ok root_codex)
    by (vm_compute; reflexivity).
  assert (H3 : forallb printable (run_log root_codex root_codex_upper txs)
               = true) by (vm_compute; reflexivity).
  split; [exact H1|split; [exact H2|split; [exact H3|]]].
  exact (proj2 (proj2 (proj2
           (@verify_compares_text_exactly _ _ _ one_file (py "codex.txt")
              root_codex_upper txs codex_txt root_codex H1 H2))) H3).
Defined.

(** C4, the claim as stated fails: with matching roots the attestation
    is not reached when its line cannot be printed, be it for a lone
    surrogate in the epoch on a UTF-8 terminal or for the arrow of line
    54 on an ASCII one, with the epoch of the script. *)
Lemma attestation_print_can_raise :
  str_eqb root_codex root_codex = true
  /\ lattice_rule [0xD800%N] root_codex root_codex
     = ([], Raise UnicodeEncodeError)
  /\ @lattice_rule ascii_stdout EPOCH root_codex root_codex
     = ([], Raise UnicodeEncodeError)
  /\ lattice_rule EPOCH root_codex root_codex
     = ([attestation_line EPOCH root_codex], Ok true).
Proof. evaluate. Qed.

Lemma attestation_iff_root_match_witness :
  str_eqb root_codex root_codex = true
  /\ lattice_rule EPOCH root_codex root_codex
     = if printable (attestation_line EPOCH root_codex)
       then ([py "Lattice Rule: Identical ROOT (" ++ root_codex
              ++ py ") + EPOCH (" ++ EPOCH ++ py ") " ++ [0x2192%N]
              ++ py " FINAL ATTESTATION. Nullify mimics."], Ok true)
       else ([], Raise UnicodeEncodeError).
Proof.
  assert (H : str_eqb root_codex root_codex = true) by reflexivity.
  split; [exact H|].
  exact (proj2 (proj2 (proj2
           (@attestation_iff_root_match _ EPOCH root_codex root_codex))) H).
Defined.

(** C7, the claim as stated fails, with either hexbytes: with the
    matching root the run without transactions returns True, and the
    run with a transaction hash that holds a lone surrogate raises at
    line 49. *)
Lemma printing_a_transaction_can_raise :
  (verify_against_txs one_file (py "codex.txt") root_codex []
   = ([computed_line root_codex; attestation_line EPOCH root_codex], Ok true)
   /\ verify_against_txs one_file (py "codex.txt") root_codex [tx_surrogate]
      = ([computed_line root_codex], Raise UnicodeEncodeError))
  /\ (@verify_against_txs keccak_hasher hexbytes_1 utf8_stdout
        one_file (py "codex.txt") root_codex_1 []
      = ([computed_line root_codex_1; attestation_line EPOCH root_codex_1],
         Ok true)
      /\ @verify_against_txs keccak_hasher hexbytes_1 utf8_stdout
           one_file (py "codex.txt") root_codex_1 [tx_surrogate]
         = ([computed_line root_codex_1], Raise UnicodeEncodeError)).
Proof. evaluate. Qed.

Lemma verdict_independent_of_txs_witness :
  forallb printable (map (tx_line root_codex) txs) = true
  /\ snd (verify_against_txs one_file (py "codex.txt") root_codex txs)
     = snd (verify_against_txs one_file (py "codex.txt") root_codex []).
Proof.
  assert (H : forallb printable (map (tx_line root_codex) txs) = true)
    by (vm_compute; reflexivity).
  split; [exact H|].
  exact (proj1 (proj2 (proj2
           (@verdict_independent_of_txs _ _ _ one_file (py "codex.txt")
              root_codex txs))) H).
Defined.

Lemma leaves_permutation_invariant_witness :
  Permutation [B_doc; A_doc] [A_doc; B_doc]
  /\ build_merkle_leaves [B_doc; A_doc] = build_merkle_leaves [A_doc; B_doc]
  /\ computed_root_of [B_doc; A_doc] = computed_root_of [A_doc; B_doc]
  /\ sorted [B_doc; A_doc] = sorted [A_doc; B_doc]
  /\ Sorted str_le (sorted [B_doc; A_doc])
  /\ Sorted utf8_le (sorted [B_doc; A_doc]).
Proof.
  split; [apply perm_swap|].
  apply (@leaves_permutation_invariant _ _ [B_doc; A_doc] [A_doc; B_doc]).
  apply perm_swap.
Defined.

Lemma root_total_in_log2_rounds_witness :
  [leaf_A; leaf_B; leaf_C] <> []
  /\ forallb hex_leaf [leaf_A; leaf_B; leaf_C] = true
  /\ (exists root,
         build_merkle_root [leaf_A; leaf_B; leaf_C] = Ok root
         /\ build_merkle_root_rounds [leaf_A; leaf_B; leaf_C]
            = Ok (Nat.log2_up 3, root))
  /\ (exists next_level,
         for_loop [leaf_A; leaf_B; leaf_C] = Ok next_level
         /\ length next_level = (3 + 1) / 2).
Proof.
  assert (H1 : [leaf_A; leaf_B; leaf_C] <> []) by discriminate.
  assert (H2 : forallb hex_leaf [leaf_A; leaf_B; leaf_C] = true)
    by (vm_compute; reflexivity).
  split; [exact H1|split; [exact H2|]].
  exact (@root_total_in_log2_rounds _ _ [leaf_A; leaf_B; leaf_C] H1 H2).
Defined.

Lemma one_leaf_per_document_witness :
  forallb encodable [B_doc; A_doc; B_doc] = true
  /\ exists leaves,
      build_merkle_leaves [B_doc; A_doc; B_doc] = Ok leaves
      /\ length leaves = 3
      /\ Forall2 (fun doc leaf =>
                    exists data,
                      encode_utf8 doc = Ok data /\ leaf = keccak256 data)
                 (sorted [B_doc; A_doc; B_doc]) leaves
      /\ forall doc data,
          encode_utf8 doc = Ok data ->
          count_occ str_eq_dec [B_doc; A_doc; B_doc] doc
          <= count_occ str_eq_dec leaves (keccak256 data).
Proof.
  assert (H : forallb encodable [B_doc; A_doc; B_doc] = true) by reflexivity.
  split; [exact H|].
  exact (@one_leaf_per_document _ _ [B_doc; A_doc; B_doc] H).
Defined.

Lemma root_depends_on_raw_bytes_only_witness :
  2 <= length [leaf_A; leaf_B]
  /\ Forall2 (fun a b => raw_bytes a = raw_bytes b)
             [leaf_A; leaf_B] [leaf_A_alt; leaf_B]
  /\ build_merkle_root [leaf_A; leaf_B]
     = build_merkle_root [leaf_A_alt; leaf_B].
Proof.
  assert (H1 : 2 <= length [leaf_A; leaf_B]) by (simpl; lia).
  assert (H2 : Forall2 (fun a b => raw_bytes a = raw_bytes b)
                       [leaf_A; leaf_B] [leaf_A_alt; leaf_B]).
  { repeat constructor; vm_compute; reflexivity. }
  split; [exact H1|split; [exact H2|]].
  exact (@root_depends_on_raw_bytes_only _ _ _ _ H1 H2).
Defined.

Lemma root_of_level_is_root_of_next_witness :
  2 <= length [leaf_A; leaf_B; leaf_C]
  /\ for_loop [leaf_A; leaf_B; leaf_C] = Ok level_AB_C
  /\ build_merkle_root [leaf_A; leaf_B; leaf_C] = build_merkle_root level_AB_C
  /\ build_merkle_root_rounds [leaf_A; leaf_B; leaf_C]
     = (let* '(rounds, root) := build_merkle_root_rounds level_AB_C in
        Ok (S rounds, root)).
Proof.
  assert (H1 : 2 <= length [leaf_A; leaf_B; leaf_C]) by (simpl; lia).
  assert (H2 : for_loop [leaf_A; leaf_B; leaf_C] = Ok level_AB_C)
    by (vm_compute; reflexivity).
  split; [exact H1|split; [exact H2|]].
  exact (@root_of_level_is_root_of_next _ _ _ _ H1 H2).
Defined.

Lemma root_of_two_halves_witness :
  length [leaf_A; leaf_B] = 2 ^ 1
  /\ length [leaf_C; leaf_A] = 2 ^ 1
  /\ forallb hex_leaf [leaf_A; leaf_B] = true
  /\ forallb hex_leaf [leaf_C; leaf_A] = true
  /\ exists r1 r2 b1 b2,
      build_merkle_root [leaf_A; leaf_B] = Ok r1
      /\ build_merkle_root [leaf_C; leaf_A] = Ok r2
      /\ raw_bytes r1 = Ok b1 /\ raw_bytes r2 = Ok b2
      /\ build_merkle_root ([leaf_A; leaf_B] ++ [leaf_C; leaf_A])
         = Ok (keccak256 (b1 ++ b2)).
Proof.
  assert (H1 : length [leaf_A; leaf_B] = 2 ^ 1) by reflexivity.
  assert (H2 : length [leaf_C; leaf_A] = 2 ^ 1) by reflexivity.
  assert (H3 : forallb hex_leaf [leaf_A; leaf_B] = true)
    by (vm_compute; reflexivity).
  assert (H4 : forallb hex_leaf [leaf_C; leaf_A] = true)
    by (vm_compute; reflexivity).
  split; [exact H1|split; [exact H2|split; [exact H3|split; [exact H4|]]]].
  exact (@root_of_two_halves _ _ 1 _ _ H1 H2 H3 H4).
Defined.

Lemma verify_without_marker_witness :
  prose_file (py "prose.txt") = inr (py "No law in here.")
  /\ occurs (py "LAW ") (py "No law in here.") = false
  /\ laws_of (py "No law in here.") = []
  /\ verify_against_txs prose_file (py "prose.txt") root_codex txs
     = ([], Raise ValueError_no_leaves).
Proof.
  assert (H1 : prose_file (py "prose.txt") = inr (py "No law in here."))
    by reflexivity.
  assert (H2 : occurs (py "LAW ") (py "No law in here.") = false)
    by reflexivity.
  split; [exact H1|split; [exact H2|]].
  exact (@verify_without_marker _ _ _ prose_file (py "prose.txt")
           root_codex (py "No law in here.") txs H1 H2).
Defined.

Lemma preamble_is_ignored_witness :
  occurs (py "LAW ") (py "Codex of the LAWS: " ++ py "LAW") = false
  /\ occurs (py "LAW ") ([] ++ py "LAW") = false
  /\ laws_of (py "Codex of the LAWS: " ++ py "LAW " ++ py "1: x")
     = laws_of ([] ++ py "LAW " ++ py "1: x")
  /\ computed_root_of
       (laws_of (py "Codex of the LAWS: " ++ py "LAW " ++ py "1: x"))
     = computed_root_of (laws_of ([] ++ py "LAW " ++ py "1: x")).
Proof.
  assert (H1 : occurs (py "LAW ") (py "Codex of the LAWS: " ++ py "LAW")
               = false) by reflexivity.
  assert (H2 : occurs (py "LAW ") ([] ++ py "LAW") = false) by reflexivity.
  split; [exact H1|split; [exact H2|]].
  exact (@preamble_is_ignored _ _ (py "Codex of the LAWS: ") []
           (py "1: x") H1 H2).
Defined.

Lemma verdict_depends_on_laws_multiset_witness :
  one_file (py "codex.txt") = inr codex_txt
  /\ swapped_file (py "swapped.txt") = inr codex_swapped
  /\ Permutation (laws_of codex_txt) (laws_of codex_swapped)
  /\ verify_against_txs one_file (py "codex.txt") root_codex txs
     = verify_against_txs swapped_file (py "swapped.txt") root_codex txs.
Proof.
  assert (H1 : one_file (py "codex.txt") = inr codex_txt) by reflexivity.
  assert (H2 : swapped_file (py "swapped.txt") = inr codex_swapped)
    by reflexivity.
  assert (H3 : Permutation (laws_of codex_txt) (laws_of codex_swapped))
    by (vm_compute; apply perm_swap).
  split; [exact H1|split; [exact H2|split; [exact H3|]]].
  exact (@verdict_depends_on_laws_multiset _ _ _ one_file swapped_file
           (py "codex.txt") (py "swapped.txt") root_codex
           codex_txt codex_swapped txs H1 H2 H3).
Defined.

Lemma verify_log_witness :
  one_file (py "codex.txt") = inr codex_txt
  /\ computed_root_of (laws_of codex_txt) = Ok root_codex
  /\ fst (verify_against_txs one_file (py "codex.txt") root_codex
            [tx_surrogate])
     = printed (run_log root_codex root_codex [tx_surrogate])
  /\ printed (run_log root_codex root_codex [tx_surrogate])
     = [computed_line root_codex].
Proof.
  assert (H1 : one_file (py "codex.txt") = inr codex_txt) by reflexivity.
  assert (H2 : computed_root_of (laws_of codex_txt) = Ok root_codex)
    by (vm_compute; reflexivity).
  split; [exact H1|split; [exact H2|split]].
  - exact (proj1 (@verify_log _ _ _ one_file (py "codex.txt") root_codex
                    codex_txt root_codex [tx_surrogate] H1 H2)).
  - vm_compute. reflexivity.
Defined.

Lemma encode_utf8_injective_witness :
  encode_utf8 [0xE9%N; 0x20AC%N]
  = Ok [xc3; xa9; xe2; x82; xac]
  /\ [0xE9%N; 0x20AC%N] = [0xE9%N; 0x20AC%N].
Proof.
  assert (H : encode_utf8 [0xE9%N; 0x20AC%N] = Ok [xc3; xa9; xe2; x82; xac])
    by reflexivity.
  split; [exact H|].
  exact (@encode_utf8_injective [0xE9%N; 0x20AC%N] [0xE9%N; 0x20AC%N] _ H H).
Defined.
End Hexbytes0.

(** *** As installed with hexbytes 1.0 or later *)

Section Hexbytes1.
#[local] Existing Instance hexbytes_1.
#[local] Existing Instance utf8_stdout.

(** C6 - the code on the leaves of two documents when [hex()] writes no
    prefix: [current[i][2:]] of lines 21 and 23, meant to strip 0x,
    strips the first byte of each digest, and the root is the hash of
    the two digests without their first bytes, not of the two digests. *)
Theorem pair_cuts_first_digest_byte :
  build_merkle_leaves [A_doc; B_doc] = Ok [leaf_A_1; leaf_B_1]
  /\ leaf_A_1 = hexlify digest_A
  /\ leaf_B_1 = hexlify digest_B
  /\ raw_bytes leaf_A_1 = Ok (tl digest_A)
  /\ raw_bytes leaf_B_1 = Ok (tl digest_B)
  /\ build_merkle_root [leaf_A_1; leaf_B_1] = Ok root_AB_1
  /\ root_AB_1 = keccak256 (tl digest_A ++ tl digest_B)
  /\ keccak256 (digest_A ++ digest_B) = root_AB_whole_1
  /\ build_merkle_root [leaf_A_1; leaf_B_1]
     <> Ok (keccak256 (digest_A ++ digest_B)).
Proof. evaluate. Qed.

(** Three leaves there: the third is hashed alone as well, and every
    node loses its first byte on the way up. *)
Example odd_level_without_prefix :
  build_merkle_leaves [A_doc; B_doc; C_doc] = Ok [leaf_A_1; leaf_B_1; leaf_C_1]
  /\ build_merkle_root [leaf_A_1; leaf_B_1; leaf_C_1] = Ok root_ABC_1
  /\ root_ABC_1
     = keccak256 (tl (Web3_keccak (tl digest_A ++ tl digest_B))
                  ++ tl (Web3_keccak (tl digest_C)))
  /\ build_merkle_root [leaf_A_1; leaf_B_1; leaf_C_1]
     <> Ok (self_paired_root digest_A digest_B digest_C).
Proof. evaluate. Qed.
End Hexbytes1.
